(** * image_processor.py: the image post-processing sidecar

    A shallow embedding of [src/assets/python_processor/image_processor.py]:
    the command-line entry point [main], the pipeline [process_image], the
    arithmetic of the watermark layout and the structured records the program
    prints.  Pillow and the operating system are an interface ([Backend])
    whose operations may raise; the program is written in a small monad that
    threads the file system, collects the trace of everything the program
    does (records printed, library calls made) and propagates exceptions the
    way Python does. *)

From Stdlib Require Import ZArith List String Ascii Bool Lia QArith.
From Stdlib Require Import DecimalString DecimalPos DecimalZ Finite.
Import ListNotations.

Local Open Scope string_scope.
Local Open Scope Z_scope.
Local Open Scope list_scope.

Set Warnings "-register-all".

(** ** Python values used by the program *)

(** [f"{n}"] for an integer: its decimal numeral. *)
Definition str_of_int (n : Z) : string :=
  NilZero.string_of_int (Z.to_int n).

(** [range(a, b)]: the integers a, a+1, ..., b-1 (empty when b <= a). *)
Definition py_range (a b : Z) : list Z :=
  map (fun i => a + Z.of_nat i) (seq 0 (Z.to_nat (b - a))).

(** Exceptions.  The handlers of the program distinguish three families:
    [except FileNotFoundError], [except Exception], and what only a bare
    [except:] catches (KeyboardInterrupt, SystemExit and other classes that
    derive from BaseException alone). *)
Inductive exn_class : Type :=
| FileNotFoundClass
| ExceptionClass
| BaseExceptionClass.

Record exn : Type := mkExn {
  exn_class_of : exn_class;   (* which handlers match *)
  exn_name : string;          (* type(e).__name__ *)
  exn_str : string            (* str(e) *)
}.

(** [FileNotFoundError(msg)] as the program itself raises it. *)
Definition FileNotFoundError (msg : string) : exn :=
  mkExn FileNotFoundClass "FileNotFoundError" msg.

Definition result (A : Type) : Type := (A + exn)%type.

(** The dictionaries handed to [json.dumps]: keys in insertion order.  The
    only number printed is [round(x, 2)]; it is kept as its count of
    hundredths. *)
Inductive json : Type :=
| JStr (s : string)
| JHundredths (n : Z)
| JObj (fields : list (string * json)).

Fixpoint assoc (k : string) (l : list (string * json)) : option json :=
  match l with
  | [] => None
  | (k', v) :: r => if String.eqb k k' then Some v else assoc k r
  end.

(** [d[k]] on a record. *)
Definition field (k : string) (j : json) : option json :=
  match j with
  | JObj l => assoc k l
  | _ => None
  end.

(** ** Floating point: [int(height * 0.05)] and [round(x, 2)]

    A non-negative binary64 value is kept exactly, as a pair [(m, e)] that
    stands for [m * 2^e].  Results are rounded to 53 significant bits, ties
    to even, as IEEE-754 multiplication and Python's int-to-float conversion
    do.  Overflow and subnormals are out of reach of the values below. *)
Definition dyadic : Type := (Z * Z)%type.

Definition rne53 (d : dyadic) : dyadic :=
  let '(n, e) := d in
  let s := Z.max 0 (Z.log2 n - 52) in
  let m := Z.shiftr n s in
  let r := n mod 2 ^ s in
  let up := (2 ^ s <? 2 * r) || ((2 ^ s =? 2 * r) && Z.odd m) in
  (if up then m + 1 else m, e + s).

(** The literal [0.05]: the double nearest to 1/20. *)
Definition double_0_05 : dyadic := (3602879701896397, -56).

Definition float_of_nonneg (n : Z) : dyadic := rne53 (n, 0).

Definition float_mul (a b : dyadic) : dyadic :=
  rne53 (fst a * fst b, snd a + snd b).

(** [int(x)] for a non-negative float: truncation. *)
Definition int_of_float (d : dyadic) : Z :=
  let '(m, e) := d in
  if 0 <=? e then m * 2 ^ e else m / 2 ^ (- e).

(** [round(x)] for a non-negative float: nearest integer, ties to even. *)
Definition round_half_even (n d : Z) : Z :=
  let q := n / d in
  let r := n mod d in
  if 2 * r <? d then q
  else if d <? 2 * r then q + 1
  else if Z.even q then q else q + 1.

Definition py_round (d : dyadic) : Z :=
  let '(m, e) := d in
  if 0 <=? e then m * 2 ^ e else round_half_even m (2 ^ (- e)).

(** Line 55: [font_size = int(height * 0.05)]. *)
Definition font_size (height : Z) : Z :=
  Z.sgn height * int_of_float (float_mul (float_of_nonneg (Z.abs height)) double_0_05).

(** What the specification asks for instead: [round(height * 0.05)]. *)
Definition spec_font_size (height : Z) : Z :=
  Z.sgn height * py_round (float_mul (float_of_nonneg (Z.abs height)) double_0_05).

(** Line 81: [shadow_offset = max(2, font_size // 30)]. *)
Definition shadow_offset (font_size : Z) : Z := Z.max 2 (font_size / 30).

(** Lines 82-85: the offsets at which the two nested loops draw, in loop
    order: every pair of the square except the centre. *)
Definition shadow_row (offset_x : Z) (ys : list Z) : list (Z * Z) :=
  flat_map (fun offset_y =>
              if negb (offset_x =? 0) || negb (offset_y =? 0)
              then [(offset_x, offset_y)] else []) ys.

Definition shadow_offsets (s : Z) : list (Z * Z) :=
  flat_map (fun offset_x => shadow_row offset_x (py_range (- s) (s + 1)))
           (py_range (- s) (s + 1)).

(** Lines 95-96 and 106: [round(file_size / (1024 * 1024), 2)], in
    hundredths.  Dividing by 2^20 is exact in binary64, and [round] with a
    digit count rounds the exact value correctly, ties to even. *)
Definition file_size_mb_hundredths (file_size : Z) : Z :=
  round_half_even (file_size * 100) (1024 * 1024).

(** ** The imaging backend and the operating system *)

(** [fill=(r, g, b, a)]. *)
Definition color : Type := (Z * Z * Z * Z)%type.

(** [ImageFilter.EDGE_ENHANCE] and [ImageFilter.SMOOTH]. *)
Inductive kernel : Type := EDGE_ENHANCE | SMOOTH.

(** [ImageEnhance.Sharpness] and [ImageEnhance.Contrast]. *)
Inductive enhancer : Type := Sharpness | Contrast.

(** What the program imports: [os.path], [PIL.Image], [ImageEnhance],
    [ImageFilter], [ImageDraw], [ImageFont].  Every call may raise, except
    [os.path.exists] (which answers False on any error) and reading
    [img.size].  [ImageFont.load_default()] takes no argument and reads no
    file, so its answer does not depend on the file system.  [Image_save] may
    leave a partial file behind when it raises, so it returns a file system
    in both cases. *)
Record Backend : Type := mkBackend {
  image : Type;
  font : Type;
  filesystem : Type;
  os_path_exists : filesystem -> string -> bool;
  os_path_getsize : filesystem -> string -> result Z;
  Image_open : filesystem -> string -> result image;
  Image_size : image -> Z * Z;
  ImageEnhance_enhance : enhancer -> image -> Q -> result image;
  Image_filter : image -> kernel -> result image;
  ImageDraw_Draw : image -> result image;
  ImageFont_truetype : filesystem -> string -> Z -> result font;
  ImageFont_load_default : result font;
  Draw_textbbox : image -> Z * Z -> string -> font -> result (Z * Z * Z * Z);
  Draw_text : image -> Z * Z -> string -> font -> color -> result image;
  Image_save : image -> string -> Z -> filesystem -> filesystem * result unit
}.

(** How a run of [main] ends: [sys.exit(code)], or an exception that no
    handler of the program catches. *)
Inductive outcome : Type :=
| Exit (code : Z)
| Uncaught (e : exn).

Section Program.

Variable B : Backend.

(** Everything observable a run does, in the order it happens. *)
Inductive event : Type :=
| Stdout (j : json)
| Stderr (j : json)
| PathExists (p : string)
| ImageOpen (p : string)
| Enhance (which : enhancer) (factor : Q)
| Filter (k : kernel)
| NewDraw
| LoadTruetype (name : string) (size : Z)
| LoadDefault
| TextBBox (xy : Z * Z) (text : string) (f : font B)
| DrawText (xy : Z * Z) (text : string) (f : font B) (fill : color)
| ImageSave (p : string) (quality : Z)
| GetSize (p : string).

(** The records written to each stream. *)
Definition stdout_of (l : list event) : list json :=
  flat_map (fun e => match e with Stdout j => [j] | _ => [] end) l.

Definition stderr_of (l : list event) : list json :=
  flat_map (fun e => match e with Stderr j => [j] | _ => [] end) l.

Definition is_print (e : event) : bool :=
  match e with Stdout _ | Stderr _ => true | _ => false end.

Definition is_stderr (e : event) : bool :=
  match e with Stderr _ => true | _ => false end.

Definition is_draw_text (e : event) : bool :=
  match e with DrawText _ _ _ _ => true | _ => false end.

(** Events that read or write the file system. *)
Definition touches_filesystem (e : event) : bool :=
  match e with
  | PathExists _ | ImageOpen _ | LoadTruetype _ _ | ImageSave _ _ | GetSize _ => true
  | _ => false
  end.

(** *** The monad: file system in, trace and file system out, value or
    exception *)
Definition M (A : Type) : Type :=
  filesystem B -> list event * filesystem B * result A.

Definition ret {A} (a : A) : M A := fun fs => ([], fs, inl a).

Definition raise {A} (e : exn) : M A := fun fs => ([], fs, inr e).

Definition bind {A C} (m : M A) (k : A -> M C) : M C :=
  fun fs =>
    let '(l1, fs1, r) := m fs in
    match r with
    | inl a => let '(l2, fs2, r2) := k a fs1 in (l1 ++ l2, fs2, r2)
    | inr e => (l1, fs1, inr e)
    end.

(** [try: m  except ... as e: h e], for a handler that takes every exception
    it is given. *)
Definition try_except {A} (m : M A) (h : exn -> M A) : M A :=
  fun fs =>
    let '(l1, fs1, r) := m fs in
    match r with
    | inl a => (l1, fs1, inl a)
    | inr e => let '(l2, fs2, r2) := h e fs1 in (l1 ++ l2, fs2, r2)
    end.

Notation "x <- m ;; k" := (bind m (fun x => k))
  (at level 61, m at next level, right associativity).
Notation "m ;;; k" := (bind m (fun _ => k))
  (at level 61, right associativity).

(** A computation all of whose events satisfy [P], however it ends. *)
Definition emits_only {A} (P : event -> bool) (m : M A) : Prop :=
  forall fs l fs' r, m fs = (l, fs', r) -> forallb P l = true.

(** [for x in l: s = body x s]. *)
Fixpoint for_in {X S} (l : list X) (body : X -> S -> M S) (s : S) : M S :=
  match l with
  | [] => ret s
  | x :: l' => s' <- body x s ;; for_in l' body s'
  end.

(** One library call: the event, then the backend's answer.  Apart from
    [Image_save], no call changes the file system. *)
Definition call {A} (e : event) (f : filesystem B -> result A) : M A :=
  fun fs => ([e], fs, f fs).

(** [print(json.dumps(j))] and [print(json.dumps(j), file=sys.stderr)].  The
    dictionaries hold strings and one float, which [json.dumps] always
    serialises; a stream that refuses the write is not modelled. *)
Definition print (j : json) : M unit := fun fs => ([Stdout j], fs, inl tt).

Definition eprint (j : json) : M unit := fun fs => ([Stderr j], fs, inl tt).

Definition path_exists (p : string) : M bool :=
  fun fs => ([PathExists p], fs, inl (os_path_exists B fs p)).

Definition getsize (p : string) : M Z :=
  call (GetSize p) (fun fs => os_path_getsize B fs p).

Definition image_open (p : string) : M (image B) :=
  call (ImageOpen p) (fun fs => Image_open B fs p).

(** Lines 37-38 and 44-45: the enhancer is built on the image and applied
    with the given factor, as one call. *)
Definition enhance (which : enhancer) (img : image B) (factor : Q) : M (image B) :=
  call (Enhance which factor) (fun _ => ImageEnhance_enhance B which img factor).

Definition filter_image (img : image B) (k : kernel) : M (image B) :=
  call (Filter k) (fun _ => Image_filter B img k).

(** Line 52: [ImageDraw.Draw(img)] draws on [img] itself, so the drawing
    context is kept as the image it wraps; what [draw.text] returns is that
    image after the call, and this is what line 92 saves. *)
Definition new_draw (img : image B) : M (image B) :=
  call NewDraw (fun _ => ImageDraw_Draw B img).

Definition truetype (name : string) (size : Z) : M (font B) :=
  call (LoadTruetype name size) (fun fs => ImageFont_truetype B fs name size).

Definition load_default : M (font B) :=
  call LoadDefault (fun _ => ImageFont_load_default B).

Definition textbbox (draw : image B) (xy : Z * Z) (text : string) (f : font B)
  : M (Z * Z * Z * Z) :=
  call (TextBBox xy text f) (fun _ => Draw_textbbox B draw xy text f).

Definition draw_text (draw : image B) (xy : Z * Z) (text : string) (f : font B)
    (fill : color) : M (image B) :=
  call (DrawText xy text f fill) (fun _ => Draw_text B draw xy text f fill).

Definition image_save (img : image B) (p : string) (quality : Z) : M unit :=
  fun fs => let '(fs', r) := Image_save B img p quality fs in
            ([ImageSave p quality], fs', r).

(** *** The records the program prints *)

Definition status_record (status message : string) : json :=
  JObj [("status", JStr status); ("message", JStr message)].

Definition error_record (message error_type : string) : json :=
  JObj [("status", JStr "error"); ("message", JStr message);
        ("error_type", JStr error_type)].

(** [f"{width}x{height}"]. *)
Definition dimensions (width height : Z) : string :=
  (str_of_int width ++ "x" ++ str_of_int height)%string.

Definition loading_record : json := status_record "loading" "Loading image...".

Definition info_record (width height : Z) : json :=
  status_record "info" ("Image loaded: " ++ dimensions width height ++ " pixels")%string.

Definition filters_record : json := status_record "processing" "Applying filters...".

Definition overlay_record : json := status_record "processing" "Adding text overlay...".

Definition saving_record : json := status_record "saving" "Saving processed image...".

(** Lines 99-108. *)
Definition success_record (input_path output_path : string)
    (width height file_size : Z) : json :=
  JObj [("status", JStr "success");
        ("message", JStr "Image processed successfully");
        ("details",
         JObj [("input_path", JStr input_path);
               ("output_path", JStr output_path);
               ("dimensions", JStr (dimensions width height));
               ("file_size_mb", JHundredths (file_size_mb_hundredths file_size))])].

(** *** The watermark *)

Definition watermark_text : string := "SATORU GOJO".

Definition shadow_fill : color := (0, 0, 0, 255).

Definition main_fill : color := (200, 230, 255, 255).

(** Lines 57-66: the two truetype names, each under a bare [except:], then
    the built-in font. *)
Definition select_font (size : Z) : M (font B) :=
  try_except (truetype "arial.ttf" size) (fun _ =>
    try_except (truetype "Arial.ttf" size) (fun _ =>
      load_default)).

(** Lines 72-77: the centred origin from the image size and the measured
    box [(left, top, right, bottom)]; [//] is floor division, as [Z.div]. *)
Definition text_origin (width height : Z) (bbox : Z * Z * Z * Z) : Z * Z :=
  let '(b0, b1, b2, b3) := bbox in
  let text_width := b2 - b0 in
  let text_height := b3 - b1 in
  ((width - text_width) / 2, (height - text_height) / 2).

(** The event of one shadow draw, at offset [o] from the origin. *)
Definition shadow_event (x y : Z) (f : font B) (o : Z * Z) : event :=
  DrawText (x + fst o, y + snd o) watermark_text f shadow_fill.

(** Lines 81-85: the two nested loops of the shadow. *)
Definition draw_shadow (draw : image B) (x y : Z) (f : font B) (size : Z)
  : M (image B) :=
  let shadow_offset := shadow_offset size in
  for_in (py_range (- shadow_offset) (shadow_offset + 1)) (fun offset_x draw =>
    for_in (py_range (- shadow_offset) (shadow_offset + 1)) (fun offset_y draw =>
      if negb (offset_x =? 0) || negb (offset_y =? 0)
      then draw_text draw (x + offset_x, y + offset_y) watermark_text f shadow_fill
      else ret draw) draw) draw.

(** *** [process_image] *)

(** Lines 18-110: the body of the [try]. *)
Definition process_image_body (input_path output_path : string) : M Z :=
  found <- path_exists input_path ;;
  (if negb found
   then raise (FileNotFoundError ("Input image not found: " ++ input_path)%string)
   else ret tt) ;;;
  print loading_record ;;;
  img <- image_open input_path ;;
  let '(width, height) := Image_size B img in
  print (info_record width height) ;;;
  print filters_record ;;;
  img <- enhance Sharpness img (3 # 2) ;;
  img <- filter_image img EDGE_ENHANCE ;;
  img <- enhance Contrast img (6 # 5) ;;
  img <- filter_image img SMOOTH ;;
  print overlay_record ;;;
  draw <- new_draw img ;;
  let font_size := font_size height in
  f <- select_font font_size ;;
  bbox <- textbbox draw (0, 0) watermark_text f ;;
  let '(x, y) := text_origin width height bbox in
  draw <- draw_shadow draw x y f font_size ;;
  draw <- draw_text draw (x, y) watermark_text f main_fill ;;
  print saving_record ;;;
  image_save draw output_path 95 ;;;
  file_size <- getsize output_path ;;
  print (success_record input_path output_path width height file_size) ;;;
  ret 0.

(** Lines 112-128: the two handlers.  An exception that is neither a
    [FileNotFoundError] nor an [Exception] passes through. *)
Definition process_image_handler (e : exn) : M Z :=
  match exn_class_of e with
  | FileNotFoundClass =>
      eprint (error_record (exn_str e) "FileNotFoundError") ;;; ret 1
  | ExceptionClass =>
      eprint (error_record ("Processing failed: " ++ exn_str e)%string (exn_name e)) ;;;
      ret 2
  | BaseExceptionClass => raise e
  end.

Definition process_image (input_path output_path : string) : M Z :=
  try_except (process_image_body input_path output_path) process_image_handler.

(** *** [main] *)

Definition usage_record : json :=
  error_record "Usage: image_processor <input_path> <output_path>" "InvalidArguments".

(** Lines 130-145; [argv] is [sys.argv], the program name first. *)
Definition main (argv : list string) (fs : filesystem B)
  : list event * filesystem B * outcome :=
  if negb (Nat.eqb (List.length argv) 3) then
    ([Stderr usage_record], fs, Exit 1)
  else
    let input_path := nth 1 argv "" in
    let output_path := nth 2 argv "" in
    let '(l, fs', r) := process_image input_path output_path fs in
    (l, fs', match r with inl exit_code => Exit exit_code | inr e => Uncaught e end).

(** The three components of a run of [main]. *)
Definition trace (r : list event * filesystem B * outcome) : list event :=
  fst (fst r).

Definition final_filesystem (r : list event * filesystem B * outcome) : filesystem B :=
  snd (fst r).

Definition exit_status (r : list event * filesystem B * outcome) : outcome :=
  snd r.

(** *** Reading a trace *)

Definition is_save (e : event) : bool :=
  match e with ImageSave _ _ => true | _ => false end.

(** The four calls of the filter stage (lines 37-48). *)
Definition is_filter_call (e : event) : bool :=
  match e with Enhance _ _ | Filter _ => true | _ => false end.

(** The calls of the overlay stage (lines 52-88). *)
Definition is_overlay_call (e : event) : bool :=
  match e with
  | NewDraw | LoadTruetype _ _ | LoadDefault | TextBBox _ _ _ | DrawText _ _ _ _ => true
  | _ => false
  end.

(** Which path each file-system call of a run may name: the input is only
    checked and opened, the output only saved (with quality 95) and
    measured. *)
Definition uses_paths (input_path output_path : string) (e : event) : bool :=
  match e with
  | PathExists p | ImageOpen p => String.eqb p input_path
  | ImageSave p q => String.eqb p output_path && (q =? 95)
  | GetSize p => String.eqb p output_path
  | _ => true
  end.

(** A sequence of [draw.text] calls on one drawing context, each on the
    result of the one before; the first that raises ends it. *)
Fixpoint draw_texts (draw : image B) (text : string) (f : font B)
    (calls : list (Z * Z * color)) : result (image B) :=
  match calls with
  | [] => inl draw
  | (xy, fill) :: rest =>
      match Draw_text B draw xy text f fill with
      | inl draw' => draw_texts draw' text f rest
      | inr e => inr e
      end
  end.

(** Position and colour of the shadow draws around [(x, y)], in loop
    order. *)
Definition shadow_call (x y : Z) (o : Z * Z) : Z * Z * color :=
  ((x + fst o, y + snd o), shadow_fill).

Definition shadow_calls (x y s : Z) : list (Z * Z * color) :=
  map (shadow_call x y) (shadow_offsets s).

End Program.

Arguments Stdout {B} j.
Arguments Stderr {B} j.
Arguments PathExists {B} p.
Arguments ImageOpen {B} p.
Arguments Enhance {B} which factor.
Arguments Filter {B} k.
Arguments NewDraw {B}.
Arguments LoadTruetype {B} name size.
Arguments LoadDefault {B}.
Arguments TextBBox {B} xy text f.
Arguments DrawText {B} xy text f fill.
Arguments ImageSave {B} p quality.
Arguments GetSize {B} p.
Arguments stdout_of {B} l.
Arguments stderr_of {B} l.
Arguments is_print {B} e.
Arguments is_draw_text {B} e.
Arguments is_stderr {B} e.
Arguments touches_filesystem {B} e.
Arguments emits_only {B A} P m.
Arguments trace {B} r.
Arguments final_filesystem {B} r.
Arguments exit_status {B} r.
Arguments is_save {B} e.
Arguments is_filter_call {B} e.
Arguments is_overlay_call {B} e.
Arguments uses_paths {B} input_path output_path e.
Arguments shadow_event {B} x y f o.

(** ** A concrete backend

    A small executable stand-in for Pillow and the file system, used to run
    the program on concrete invocations.  A file has a byte size and, when it
    holds an image, its dimensions; fonts are known by name; a path can be
    marked as one where writing raises a given exception. *)
Module Demo.

Record file : Type := mkFile {
  file_bytes : Z;
  file_image : option (Z * Z)
}.

Record disk : Type := mkDisk {
  files : list (string * file);
  fonts : list string;
  unwritable : list (string * exn)
}.

Fixpoint lookup {A} (p : string) (l : list (string * A)) : option A :=
  match l with
  | [] => None
  | (q, a) :: r => if String.eqb p q then Some a else lookup p r
  end.

Definition exists_ (d : disk) (p : string) : bool :=
  match lookup p (files d) with Some _ => true | None => false end.

Definition getsize_ (d : disk) (p : string) : result Z :=
  match lookup p (files d) with
  | Some f => inl (file_bytes f)
  | None => inr (FileNotFoundError ("[Errno 2] No such file or directory: " ++ p)%string)
  end.

Definition open_ (d : disk) (p : string) : result (Z * Z) :=
  match lookup p (files d) with
  | Some f =>
      match file_image f with
      | Some wh => inl wh
      | None => inr (mkExn ExceptionClass "UnidentifiedImageError"
                       ("cannot identify image file " ++ p)%string)
      end
  | None => inr (FileNotFoundError ("[Errno 2] No such file or directory: " ++ p)%string)
  end.

Definition truetype_ (d : disk) (name : string) (size : Z) : result (string * Z) :=
  if existsb (String.eqb name) (fonts d) then inl (name, size)
  else inr (mkExn ExceptionClass "OSError" "cannot open resource").

(** A box that grows with the font; the built-in font has a fixed one. *)
Definition textbbox_ (xy : Z * Z) (text : string) (f : string * Z) : Z * Z * Z * Z :=
  let n := Z.of_nat (String.length text) in
  let '(x, y) := xy in
  if String.eqb (fst f) "default" then (x, y + 3, x + 6 * n, y + 11)
  else (x, y + snd f / 4, x + n * snd f / 2, y + snd f).

Definition encoded_size (wh : Z * Z) : Z := 600 + fst wh * snd wh * 3 / 10.

Definition save_ (img : Z * Z) (p : string) (quality : Z) (d : disk)
  : disk * result unit :=
  match lookup p (unwritable d) with
  | Some e => (d, inr e)
  | None =>
      (mkDisk ((p, mkFile (encoded_size img) (Some img)) :: files d)
              (fonts d) (unwritable d),
       inl tt)
  end.

Definition backend : Backend := {|
  image := Z * Z;
  font := string * Z;
  filesystem := disk;
  os_path_exists := exists_;
  os_path_getsize := getsize_;
  Image_open := open_;
  Image_size := fun img => img;
  ImageEnhance_enhance := fun _ img _ => inl img;
  Image_filter := fun img _ => inl img;
  ImageDraw_Draw := fun img => inl img;
  ImageFont_truetype := truetype_;
  ImageFont_load_default := inl ("default", 10);
  Draw_textbbox := fun _ xy text f => inl (textbbox_ xy text f);
  Draw_text := fun img _ _ _ _ => inl img;
  Image_save := save_
|}.

(** A 200x100 picture on disk and no truetype font installed. *)
Definition disk0 : disk :=
  mkDisk [("in.png", mkFile 1234 (Some (200, 100)));
          ("notes.txt", mkFile 17 None)]
         [] [].

(** An 800x533 photograph, with [Arial.ttf] installed. *)
Definition disk1 : disk :=
  mkDisk [("photo.jpg", mkFile 345678 (Some (800, 533)))]
         ["Arial.ttf"] [].

(** The output path lies in a directory that does not exist: opening it for
    writing raises [FileNotFoundError]. *)
Definition disk2 : disk :=
  mkDisk [("in.png", mkFile 1234 (Some (200, 100)))]
         []
         [("missing/out.png",
           FileNotFoundError "[Errno 2] No such file or directory: 'missing/out.png'")].

End Demo.

(** * Properties *)

(** ** Arithmetic of the font size *)

Section FontSize.

Lemma pow2_pos (s : Z) : 0 <= s -> 0 < 2 ^ s.
Proof. intros; apply Z.pow_pos_nonneg; lia. Qed.

(** Rounding keeps the value within one unit of the last kept bit, and is
    exact when nothing is shifted out. *)
Lemma rne53_bounds (n e : Z) :
  0 <= n ->
  exists s m,
    rne53 (n, e) = (m, e + s) /\
    s = Z.max 0 (Z.log2 n - 52) /\
    n / 2 ^ s <= m <= n / 2 ^ s + 1 /\
    (s = 0 -> m = n).
Proof.
  intros Hn. unfold rne53.
  set (s := Z.max 0 (Z.log2 n - 52)).
  exists s.
  rewrite Z.shiftr_div_pow2 by lia.
  eexists; split; [reflexivity|]. split; [reflexivity|]. split.
  - destruct (_ || _); lia.
  - intros Hs. rewrite Hs. change (2 ^ 0) with 1.
    rewrite Z.mod_1_r, Z.div_1_r. simpl.
    destruct (Z.odd n); reflexivity.
Qed.

(** Integers below 2^53 convert to float unchanged. *)
Lemma float_of_nonneg_exact (n : Z) :
  0 <= n < 2 ^ 53 -> float_of_nonneg n = (n, 0).
Proof.
  intros Hn. unfold float_of_nonneg.
  destruct (rne53_bounds n 0) as (s & m & Hr & Hs & _ & Hex); [lia|].
  assert (Hz : s = 0).
  { destruct (Z.eq_dec n 0) as [En|En]; [rewrite Hs, En; reflexivity|].
    assert (Z.log2 n < 53) by (apply Z.log2_lt_pow2; lia). lia. }
  rewrite Hr, (Hex Hz), Hz. reflexivity.
Qed.

Lemma font_size_floor_pos (h : Z) :
  0 < h < 2 ^ 52 ->
  int_of_float (float_mul (h, 0) double_0_05) = h / 20.
Proof.
  intros Hh. unfold float_mul, double_0_05. cbn [fst snd].
  set (N := h * 3602879701896397).
  assert (HN : 0 < N < 2 ^ 104) by (subst N; change (2 ^ 104) with (2 ^ 52 * 2 ^ 52); nia).
  destruct (rne53_bounds N (0 + -56)) as (s & m & Hr & Hs & Hm & _); [lia|].
  rewrite Hr. unfold int_of_float.
  assert (Hlog : Z.log2 N < 104) by (apply Z.log2_lt_pow2; lia).
  assert (Hs0 : 0 <= s <= 51) by lia.
  replace (0 <=? 0 + -56 + s) with false by (symmetry; apply Z.leb_gt; lia).
  replace (- (0 + -56 + s)) with (56 - s) by lia.
  set (P := 2 ^ s) in *. set (Q := 2 ^ (56 - s)).
  assert (HP : 0 < P) by (apply pow2_pos; lia).
  assert (HQ : 0 < Q) by (apply pow2_pos; lia).
  assert (HPQ : P * Q = 2 ^ 56).
  { subst P Q. rewrite <- Z.pow_add_r by lia. f_equal. lia. }
  assert (HP51 : P <= 2 ^ 51) by (subst P; apply Z.pow_le_mono_r; lia).
  pose proof (Z.div_mod N P ltac:(lia)) as Hdm.
  pose proof (Z.mod_pos_bound N P HP) as Hmod.
  pose proof (Z.div_mod h 20 ltac:(lia)) as Hh20.
  pose proof (Z.mod_pos_bound h 20 ltac:(lia)) as Hr20.
  set (q := h / 20) in *. set (d := N / P) in *.
  change (2 ^ 56) with 72057594037927936 in HPQ.
  change (2 ^ 51) with 2251799813685248 in HP51.
  change (2 ^ 52) with 4503599627370496 in Hh.
  symmetry. apply Z.div_unique with (r := m - q * Q).
  - left. split.
    + (* q * Q <= m *)
      assert (q * Q * P <= N) by (subst N; nia).
      assert (q * Q < d + 1) by nia. lia.
    + (* m < (q + 1) * Q *)
      assert (d + 2 <= (q + 1) * Q); [|lia].
      assert (Hc : (q + 1) * Q - 2 < d \/ d + 2 <= (q + 1) * Q) by lia.
      destruct Hc as [Hc|Hc]; [exfalso|exact Hc].
      assert (((q + 1) * Q - 1) * P <= N) by nia.
      assert (20 * N <= 20 * (q + 1) * 72057594037927936 - 72057594037927936 + 4 * h)
        by (subst N; nia).
      nia.
  - lia.
Qed.

End FontSize.

(** ** Runs of the monad *)

Section Runs.

Variable B : Backend.

Lemma bind_inl {A C} (m : M B A) (k : A -> M B C) fs l fs' c :
  bind B m k fs = (l, fs', inl c) ->
  exists l1 fs1 a l2,
    m fs = (l1, fs1, inl a) /\ k a fs1 = (l2, fs', inl c) /\ l = l1 ++ l2.
Proof.
  unfold bind. destruct (m fs) as [[l1 fs1] [a|e]]; [|discriminate].
  destruct (k a fs1) as [[l2 fs2] r2] eqn:Ek. intros H; inversion H; subst.
  exists l1, fs1, a, l2. repeat split; try reflexivity. exact Ek.
Qed.

Lemma call_inl {A} (e : event B) (f : filesystem B -> result A) fs l fs' a :
  call B e f fs = (l, fs', inl a) -> l = [e] /\ fs' = fs /\ f fs = inl a.
Proof. unfold call. intros H; inversion H; auto. Qed.

Lemma emits_only_ret {A} P (a : A) : emits_only P (ret B a).
Proof. intros fs l fs' r H; inversion H; reflexivity. Qed.

Lemma emits_only_raise {A} P e : emits_only P (@raise B A e).
Proof. intros fs l fs' r H; inversion H; reflexivity. Qed.

Lemma emits_only_bind {A C} P (m : M B A) (k : A -> M B C) :
  emits_only P m -> (forall a, emits_only P (k a)) -> emits_only P (bind B m k).
Proof.
  intros Hm Hk fs l fs' r. unfold bind.
  destruct (m fs) as [[l1 fs1] [a|e]] eqn:Em.
  - destruct (k a fs1) as [[l2 fs2] r2] eqn:Ek. intros H; inversion H; subst.
    rewrite forallb_app, (Hm _ _ _ _ Em), (Hk _ _ _ _ _ Ek). reflexivity.
  - intros H; inversion H; subst. exact (Hm _ _ _ _ Em).
Qed.

Lemma emits_only_try_except {A} P (m : M B A) (h : exn -> M B A) :
  emits_only P m -> (forall e, emits_only P (h e)) -> emits_only P (try_except B m h).
Proof.
  intros Hm Hh fs l fs' r. unfold try_except.
  destruct (m fs) as [[l1 fs1] [a|e]] eqn:Em.
  - intros H; inversion H; subst. exact (Hm _ _ _ _ Em).
  - destruct (h e fs1) as [[l2 fs2] r2] eqn:Eh. intros H; inversion H; subst.
    rewrite forallb_app, (Hm _ _ _ _ Em), (Hh _ _ _ _ _ Eh). reflexivity.
Qed.

Lemma emits_only_for_in {X S} P (xs : list X) (body : X -> S -> M B S) :
  (forall x s, emits_only P (body x s)) -> forall s, emits_only P (for_in B xs body s).
Proof.
  intros Hb. induction xs as [|x xs IH]; intros s; simpl.
  - apply emits_only_ret.
  - apply emits_only_bind; auto.
Qed.

Lemma emits_only_call {A} P e (f : filesystem B -> result A) :
  P e = true -> emits_only P (call B e f).
Proof. intros He fs l fs' r H; inversion H; subst; simpl; rewrite He; reflexivity. Qed.

(** *** The shadow loops *)

Lemma shadow_row_run (ys : list Z) (ox x y : Z) (f : font B) :
  forall d fs l fs' d',
    for_in B ys (fun offset_y draw =>
      if negb (ox =? 0) || negb (offset_y =? 0)
      then draw_text B draw (x + ox, y + offset_y) watermark_text f shadow_fill
      else ret B draw) d fs = (l, fs', inl d') ->
    l = map (shadow_event x y f) (shadow_row ox ys) /\ fs' = fs.
Proof.
  induction ys as [|oy ys IH]; intros d fs l fs' d' H; simpl in H.
  - inversion H; auto.
  - apply bind_inl in H. destruct H as (l1 & fs1 & d1 & l2 & H1 & H2 & ->).
    apply IH in H2. destruct H2 as [-> ->].
    unfold shadow_row in *. simpl.
    destruct (negb (ox =? 0) || negb (oy =? 0)).
    + apply call_inl in H1. destruct H1 as (-> & -> & _). auto.
    + inversion H1; subst. auto.
Qed.

Lemma shadow_rows_run (xs ys : list Z) (x y : Z) (f : font B) :
  forall d fs l fs' d',
    for_in B xs (fun offset_x draw =>
      for_in B ys (fun offset_y draw =>
        if negb (offset_x =? 0) || negb (offset_y =? 0)
        then draw_text B draw (x + offset_x, y + offset_y) watermark_text f shadow_fill
        else ret B draw) draw) d fs = (l, fs', inl d') ->
    l = map (shadow_event x y f) (flat_map (fun ox => shadow_row ox ys) xs) /\ fs' = fs.
Proof.
  induction xs as [|ox xs IH]; intros d fs l fs' d' H; simpl in H.
  - inversion H; auto.
  - apply bind_inl in H. destruct H as (l1 & fs1 & d1 & l2 & H1 & H2 & ->).
    apply shadow_row_run in H1. destruct H1 as [-> ->].
    apply IH in H2. destruct H2 as [-> ->].
    simpl. rewrite map_app. auto.
Qed.

Lemma draw_shadow_run (draw : image B) (x y : Z) (f : font B) (size : Z) fs l fs' d' :
  draw_shadow B draw x y f size fs = (l, fs', inl d') ->
  l = map (shadow_event x y f) (shadow_offsets (shadow_offset size)) /\ fs' = fs.
Proof. unfold draw_shadow, shadow_offsets. apply shadow_rows_run. Qed.

(** *** Font selection *)

Lemma select_font_run (size : Z) (fs : filesystem B) :
  select_font B size fs =
    match ImageFont_truetype B fs "arial.ttf" size with
    | inl f => ([LoadTruetype "arial.ttf" size], fs, inl f)
    | inr _ =>
        match ImageFont_truetype B fs "Arial.ttf" size with
        | inl f => ([LoadTruetype "arial.ttf" size; LoadTruetype "Arial.ttf" size],
                    fs, inl f)
        | inr _ => ([LoadTruetype "arial.ttf" size; LoadTruetype "Arial.ttf" size;
                     LoadDefault],
                    fs, ImageFont_load_default B)
        end
    end.
Proof.
  unfold select_font, try_except, truetype, call, load_default.
  destruct (ImageFont_truetype B fs "arial.ttf" size); [reflexivity|].
  destruct (ImageFont_truetype B fs "Arial.ttf" size); reflexivity.
Qed.

(** *** Stepping through a successful run *)

Ltac run_step H a Hs :=
  apply bind_inl in H;
  let l1 := fresh "l" in let fs1 := fresh "fs" in let l2 := fresh "l" in
  destruct H as (l1 & fs1 & a & l2 & Hs & H & ->).

Ltac run_print H :=
  let u := fresh "u" in let Hs := fresh "Hs" in
  run_step H u Hs; inversion Hs; subst; clear Hs.

Ltac run_call H a E :=
  let Hs := fresh "Hs" in
  run_step H a Hs; apply call_inl in Hs; destruct Hs as (-> & -> & E).

(** A run of the body that returns did every step of the pipeline, in
    order, and each library call answered. *)
Lemma process_image_body_success inp out fs l fs' c :
  process_image_body B inp out fs = (l, fs', inl c) ->
  exists img width height f bbox draw x y final size lfont,
    os_path_exists B fs inp = true /\
    Image_open B fs inp = inl img /\
    Image_size B img = (width, height) /\
    select_font B (font_size height) fs = (lfont, fs, inl f) /\
    Draw_textbbox B draw (0, 0) watermark_text f = inl bbox /\
    text_origin width height bbox = (x, y) /\
    Image_save B final out 95 fs = (fs', inl tt) /\
    os_path_getsize B fs' out = inl size /\
    c = 0 /\
    l = [PathExists inp; Stdout loading_record; ImageOpen inp;
         Stdout (info_record width height); Stdout filters_record;
         Enhance Sharpness (3 # 2); Filter EDGE_ENHANCE;
         Enhance Contrast (6 # 5); Filter SMOOTH;
         Stdout overlay_record; NewDraw]
        ++ lfont
        ++ [TextBBox (0, 0) watermark_text f]
        ++ map (shadow_event x y f) (shadow_offsets (shadow_offset (font_size height)))
        ++ [DrawText (x, y) watermark_text f main_fill;
            Stdout saving_record; ImageSave out 95; GetSize out;
            Stdout (success_record inp out width height size)].
Proof.
  unfold process_image_body. intros H.
  run_step H found Hs. unfold path_exists in Hs. inversion Hs; subst; clear Hs.
  run_step H u Hs.
  match type of Hs with context [os_path_exists B ?f inp] =>
    destruct (os_path_exists B f inp) eqn:Eex; [|discriminate] end.
  inversion Hs; subst; clear Hs.
  run_print H.
  run_call H img Eopen.
  destruct (Image_size B img) as [width height] eqn:Esz.
  run_print H. run_print H.
  run_call H img1 E1. run_call H img2 E2. run_call H img3 E3. run_call H img4 E4.
  run_print H.
  run_call H draw Edraw.
  run_step H f Hfont.
  run_call H bbox Ebbox.
  destruct (text_origin width height bbox) as [x y] eqn:Eorg.
  run_step H draw1 Hshadow. apply draw_shadow_run in Hshadow. destruct Hshadow as [-> ->].
  run_call H draw2 Etext.
  run_print H.
  run_step H u1 Hsave.
  run_call H size Esize.
  run_print H.
  inversion H; subst; clear H.
  assert (fs1 = fs).
  { rewrite select_font_run in Hfont.
    destruct (ImageFont_truetype B fs "arial.ttf" (font_size height));
      [|destruct (ImageFont_truetype B fs "Arial.ttf" (font_size height))];
      inversion Hfont; reflexivity. }
  subst fs1.
  unfold image_save in Hsave.
  destruct (Image_save B draw2 out 95 fs) as [fs2 r] eqn:Esave.
  inversion Hsave; subst; clear Hsave. destruct u1.
  exists img, width, height, f, bbox, draw, x, y, draw2, size, l.
  repeat split; assumption.
Qed.

Lemma process_image_returns (inp out : string) fs l fs' c :
  process_image B inp out fs = (l, fs', inl c) ->
  (c = 0 /\ process_image_body B inp out fs = (l, fs', inl 0)) \/
  (c <> 0 /\ exists l0 e, process_image_body B inp out fs = (l0, fs', inr e)).
Proof.
  unfold process_image, try_except.
  destruct (process_image_body B inp out fs) as [[l1 fs1] [c1|e]] eqn:Eb.
  - intros H; inversion H; subst.
    destruct (process_image_body_success _ _ _ _ _ _ Eb)
      as (? & ? & ? & ? & ? & ? & ? & ? & ? & ? & ? & ? & ? & ? & ? & ? & ? & ? & ? & -> & _).
    left; auto.
  - unfold process_image_handler.
    destruct (exn_class_of e); cbn; intros H; inversion H; subst;
      right; (split; [lia|eauto]).
Qed.

Lemma main_exit_0 (argv : list string) fs l fs' :
  main B argv fs = (l, fs', Exit 0) ->
  exists prog inp out,
    argv = [prog; inp; out] /\
    process_image_body B inp out fs = (l, fs', inl 0).
Proof.
  unfold main.
  destruct argv as [|prog [|inp [|out [|extra argv]]]]; cbn;
    try (intros H; discriminate H).
  destruct (process_image B inp out fs) as [[l1 fs1] [c|e]] eqn:Ep;
    intros H; inversion H; subst.
  apply process_image_returns in Ep. destruct Ep as [[_ Hb]|[Hc _]]; [|lia].
  exists prog, inp, out. auto.
Qed.

End Runs.

(** ** The offsets of the shadow *)

Section Offsets.

Lemma in_py_range (a b i : Z) : In i (py_range a b) <-> a <= i < b.
Proof.
  unfold py_range. rewrite in_map_iff. split.
  - intros (n & <- & Hn). apply in_seq in Hn. lia.
  - intros Hi. exists (Z.to_nat (i - a)). split; [lia|]. apply in_seq. lia.
Qed.

Lemma NoDup_py_range (a b : Z) : NoDup (py_range a b).
Proof.
  unfold py_range. apply Injective_map_NoDup; [|apply seq_NoDup].
  intros n m H. lia.
Qed.

Lemma length_py_range (a b : Z) : List.length (py_range a b) = Z.to_nat (b - a).
Proof. unfold py_range. rewrite length_map, length_seq. reflexivity. Qed.

(** A row of the loop is the row of the square without its centre. *)
Lemma shadow_row_filter (ox : Z) (ys : list Z) :
  shadow_row ox ys =
  map (pair ox) (filter (fun oy => negb (ox =? 0) || negb (oy =? 0)) ys).
Proof.
  unfold shadow_row. induction ys as [|oy ys IH]; [reflexivity|].
  cbn [flat_map filter]. rewrite IH.
  destruct (negb (ox =? 0) || negb (oy =? 0)); reflexivity.
Qed.

Lemma in_shadow_row (ox a b : Z) (ys : list Z) :
  In (a, b) (shadow_row ox ys) <-> a = ox /\ In b ys /\ (a, b) <> (0, 0).
Proof.
  rewrite shadow_row_filter, in_map_iff. split.
  - intros (oy & Heq & Hin). inversion Heq; subst. apply filter_In in Hin.
    destruct Hin as [Hin Hp]. repeat split; [assumption|].
    intros Hz. inversion Hz; subst. discriminate Hp.
  - intros (-> & Hin & Hnz). exists b. split; [reflexivity|].
    apply filter_In. split; [assumption|].
    destruct (Z.eqb_spec ox 0) as [->|]; [|reflexivity].
    destruct (Z.eqb_spec b 0) as [->|]; [|reflexivity].
    exfalso. apply Hnz. reflexivity.
Qed.

Lemma NoDup_shadow_row (ox : Z) (ys : list Z) :
  NoDup ys -> NoDup (shadow_row ox ys).
Proof.
  intros H. rewrite shadow_row_filter.
  apply Injective_map_NoDup; [|apply NoDup_filter; assumption].
  intros a b Hab. inversion Hab. reflexivity.
Qed.

Lemma NoDup_shadow_rows (xs ys : list Z) :
  NoDup xs -> NoDup ys -> NoDup (flat_map (fun ox => shadow_row ox ys) xs).
Proof.
  intros Hx Hy. induction Hx as [|ox xs Hnin Hx IH]; cbn [flat_map]; [constructor|].
  apply NoDup_app; [apply NoDup_shadow_row; assumption|exact IH|].
  intros [a b] Ha Hb. apply in_shadow_row in Ha. destruct Ha as (-> & _).
  apply in_flat_map in Hb. destruct Hb as (ox' & Hin & Hb).
  apply in_shadow_row in Hb. destruct Hb as (-> & _). contradiction.
Qed.

(** How many entries of a list are zero. *)
Lemma zeros_NoDup (l : list Z) :
  NoDup l ->
  List.length (filter (fun z => z =? 0) l) = if in_dec Z.eq_dec 0 l then 1%nat else 0%nat.
Proof.
  induction 1 as [|z l Hnin Hnd IH]; [reflexivity|].
  cbn [filter]. destruct (Z.eqb_spec z 0) as [->|Hz].
  - cbn [List.length]. rewrite IH.
    destruct (in_dec Z.eq_dec 0 l); [contradiction|].
    destruct (in_dec Z.eq_dec 0 (0 :: l)) as [|Hn]; [reflexivity|].
    exfalso; apply Hn; left; reflexivity.
  - rewrite IH. destruct (in_dec Z.eq_dec 0 l) as [Hi|Hi];
      destruct (in_dec Z.eq_dec 0 (z :: l)) as [Hj|Hj]; try reflexivity.
    + exfalso; apply Hj; right; assumption.
    + destruct Hj; [contradiction|contradiction].
Qed.

Lemma length_shadow_row (ox : Z) (ys : list Z) :
  (List.length (shadow_row ox ys)
   + (if (ox =? 0)%Z then List.length (filter (fun z => (z =? 0)%Z) ys) else 0)
   = List.length ys)%nat.
Proof.
  rewrite shadow_row_filter, length_map.
  destruct (ox =? 0); cbn [negb orb].
  - rewrite <- (filter_length (fun z => z =? 0) ys). lia.
  - rewrite Nat.add_0_r. f_equal.
    induction ys as [|y ys IH]; [reflexivity|]. cbn [filter]. f_equal. exact IH.
Qed.

Lemma length_shadow_rows (xs ys : list Z) :
  (List.length (flat_map (fun ox => shadow_row ox ys) xs)
   + List.length (filter (fun z => (z =? 0)%Z) xs)
     * List.length (filter (fun z => (z =? 0)%Z) ys)
   = List.length xs * List.length ys)%nat.
Proof.
  induction xs as [|ox xs IH]; [reflexivity|].
  cbn [flat_map filter List.length]. rewrite length_app.
  pose proof (length_shadow_row ox ys) as Hr.
  destruct (ox =? 0); cbn [List.length]; lia.
Qed.

Lemma in_shadow_offsets (s dx dy : Z) :
  In (dx, dy) (shadow_offsets s) <->
  - s <= dx <= s /\ - s <= dy <= s /\ (dx, dy) <> (0, 0).
Proof.
  unfold shadow_offsets. rewrite in_flat_map. split.
  - intros (ox & Hox & Hin). apply in_shadow_row in Hin.
    destruct Hin as (-> & Hy & Hnz).
    apply in_py_range in Hox, Hy. repeat split; try lia. exact Hnz.
  - intros (Hx & Hy & Hnz). exists dx. split; [apply in_py_range; lia|].
    apply in_shadow_row. repeat split; [apply in_py_range; lia|exact Hnz].
Qed.

Lemma NoDup_shadow_offsets (s : Z) : NoDup (shadow_offsets s).
Proof. apply NoDup_shadow_rows; apply NoDup_py_range. Qed.

Lemma length_shadow_offsets (s : Z) :
  0 <= s ->
  Z.of_nat (List.length (shadow_offsets s)) = (2 * s + 1) ^ 2 - 1.
Proof.
  intros Hs. unfold shadow_offsets.
  pose proof (length_shadow_rows (py_range (- s) (s + 1)) (py_range (- s) (s + 1))) as H.
  rewrite (zeros_NoDup _ (NoDup_py_range _ _)), length_py_range in H.
  destruct (in_dec Z.eq_dec 0 (py_range (- s) (s + 1))) as [_|Hn].
  - nia.
  - exfalso. apply Hn. apply in_py_range. lia.
Qed.

End Offsets.

(** ** What reaches the two streams *)

Section Streams.

Variable B : Backend.

Lemma stdout_of_app (l1 l2 : list (event B)) :
  stdout_of (l1 ++ l2) = stdout_of l1 ++ stdout_of l2.
Proof. apply flat_map_app. Qed.

Lemma stderr_of_app (l1 l2 : list (event B)) :
  stderr_of (l1 ++ l2) = stderr_of l1 ++ stderr_of l2.
Proof. apply flat_map_app. Qed.

Lemma silent_streams (l : list (event B)) :
  forallb (fun e => negb (is_print e)) l = true ->
  stdout_of l = [] /\ stderr_of l = [].
Proof.
  induction l as [|e l IH]; [auto|]. cbn [forallb]. intros H.
  apply andb_true_iff in H. destruct H as [He Hl]. destruct (IH Hl) as [Ho Hr].
  destruct e; try discriminate He; cbn; auto.
Qed.

Lemma select_font_silent (size : Z) fs l fs' r :
  select_font B size fs = (l, fs', r) ->
  forallb (fun e => negb (is_print e)) l = true.
Proof.
  rewrite select_font_run.
  destruct (ImageFont_truetype B fs "arial.ttf" size);
    [|destruct (ImageFont_truetype B fs "Arial.ttf" size)];
    intros H; inversion H; reflexivity.
Qed.

Lemma shadow_events_silent (x y : Z) (f : font B) (os : list (Z * Z)) :
  forallb (fun e => negb (is_print e)) (map (shadow_event x y f) os) = true.
Proof. induction os as [|o os IH]; [reflexivity|exact IH]. Qed.

Lemma shadow_events_draw (x y : Z) (f : font B) (os : list (Z * Z)) :
  filter is_draw_text (map (shadow_event x y f) os) = map (shadow_event x y f) os.
Proof. induction os as [|o os IH]; [reflexivity|]. cbn. f_equal. exact IH. Qed.

Lemma select_font_no_draw (size : Z) fs l fs' r :
  select_font B size fs = (l, fs', r) -> filter is_draw_text l = [].
Proof.
  rewrite select_font_run.
  destruct (ImageFont_truetype B fs "arial.ttf" size);
    [|destruct (ImageFont_truetype B fs "Arial.ttf" size)];
    intros H; inversion H; reflexivity.
Qed.

(** A missing input: the existence check, then the error record. *)
Lemma main_missing_input (prog inp out : string) (fs : filesystem B) :
  os_path_exists B fs inp = false ->
  main B [prog; inp; out] fs =
    ([PathExists inp;
      Stderr (error_record ("Input image not found: " ++ inp)%string "FileNotFoundError")],
     fs, Exit 1).
Proof.
  intros H. unfold main, process_image, try_except, process_image_body.
  cbn [List.length Nat.eqb negb nth].
  unfold bind at 1. unfold path_exists at 1. rewrite H.
  unfold bind at 1. cbn. reflexivity.
Qed.

End Streams.

(** * The claims *)

(** ** Invalid invocations and missing input *)

(** C4.  When [os.path.exists] answers False for the input path, the run
    exits with code 1; standard error receives exactly one record, of
    status "error" and error_type "FileNotFoundError", whose message ends
    with the offending path; the file system is left as it was and nothing is
    ever saved. *)
Theorem missing_input_exits_1 (B : Backend) (prog inp out : string)
    (fs : filesystem B) :
  os_path_exists B fs inp = false ->
  exit_status (main B [prog; inp; out] fs) = Exit 1 /\
  (exists r,
     stderr_of (trace (main B [prog; inp; out] fs)) = [r] /\
     field "status" r = Some (JStr "error") /\
     field "error_type" r = Some (JStr "FileNotFoundError") /\
     field "message" r = Some (JStr ("Input image not found: " ++ inp)%string)) /\
  final_filesystem (main B [prog; inp; out] fs) = fs /\
  (forall p q, ~ In (ImageSave p q) (trace (main B [prog; inp; out] fs))).
Proof.
  intros H. rewrite (main_missing_input B prog inp out fs H).
  cbn [exit_status trace final_filesystem fst snd].
  split; [reflexivity|]. split; [|split; [reflexivity|]].
  - eexists. split; [reflexivity|]. cbn. auto.
  - intros p q [Hin|[Hin|[]]]; discriminate Hin.
Qed.

Lemma missing_input_exits_1_witness :
  os_path_exists Demo.backend Demo.disk0 "nope.png" = false /\
  exit_status (main Demo.backend ["image_processor"; "nope.png"; "out.png"] Demo.disk0)
  = Exit 1.
Proof.
  split; [reflexivity|].
  apply (missing_input_exits_1 Demo.backend "image_processor" "nope.png" "out.png"
           Demo.disk0).
  reflexivity.
Defined.

(** C10.  When the input path does not exist nothing is written to standard
    output: the whole trace of the run is the existence check followed by
    the one error record on standard error, so no "loading" record (and no
    other library call) precedes the failure. *)
Theorem missing_input_prints_nothing (B : Backend) (prog inp out : string)
    (fs : filesystem B) :
  os_path_exists B fs inp = false ->
  stdout_of (trace (main B [prog; inp; out] fs)) = [] /\
  trace (main B [prog; inp; out] fs) =
    [PathExists inp;
     Stderr (error_record ("Input image not found: " ++ inp)%string "FileNotFoundError")].
Proof.
  intros H. rewrite (main_missing_input B prog inp out fs H).
  split; reflexivity.
Qed.

Lemma missing_input_prints_nothing_witness :
  os_path_exists Demo.backend Demo.disk0 "nope.png" = false /\
  stdout_of (trace (main Demo.backend ["image_processor"; "nope.png"; "out.png"]
                      Demo.disk0)) = [].
Proof.
  split; [reflexivity|].
  apply (missing_input_prints_nothing Demo.backend "image_processor" "nope.png"
           "out.png" Demo.disk0).
  reflexivity.
Defined.

(** C5.  When [sys.argv] does not have exactly three entries (the program
    name and two positional arguments), the run consists of one event only:
    the "InvalidArguments" error record on standard error.  It exits with
    code 1, makes no library call at all, so nothing touches the file system,
    and the file system is unchanged. *)
Theorem wrong_argument_count (B : Backend) (argv : list string) (fs : filesystem B) :
  List.length argv <> 3%nat ->
  exit_status (main B argv fs) = Exit 1 /\
  trace (main B argv fs) = [Stderr usage_record] /\
  field "error_type" usage_record = Some (JStr "InvalidArguments") /\
  existsb touches_filesystem (trace (main B argv fs)) = false /\
  final_filesystem (main B argv fs) = fs.
Proof.
  intros H. unfold main.
  destruct (Nat.eqb_spec (List.length argv) 3) as [E|_]; [contradiction|].
  cbn. repeat split; reflexivity.
Qed.

Lemma wrong_argument_count_witness :
  List.length ["image_processor"; "in.png"] <> 3%nat /\
  exit_status (main Demo.backend ["image_processor"; "in.png"] Demo.disk0) = Exit 1.
Proof.
  split; [discriminate|].
  apply (wrong_argument_count Demo.backend ["image_processor"; "in.png"] Demo.disk0).
  discriminate.
Defined.

(** ** Successful runs *)

(** A run that exits with code 0 is a run of the whole pipeline. *)
Lemma successful_run (B : Backend) (argv : list string) (fs : filesystem B) :
  exit_status (main B argv fs) = Exit 0 ->
  exists prog inp out img width height f bbox draw x y final size lfont,
    argv = [prog; inp; out] /\
    os_path_exists B fs inp = true /\
    Image_open B fs inp = inl img /\
    Image_size B img = (width, height) /\
    select_font B (font_size height) fs = (lfont, fs, inl f) /\
    Draw_textbbox B draw (0, 0) watermark_text f = inl bbox /\
    text_origin width height bbox = (x, y) /\
    Image_save B final out 95 fs = (final_filesystem (main B argv fs), inl tt) /\
    os_path_getsize B (final_filesystem (main B argv fs)) out = inl size /\
    trace (main B argv fs) =
      [PathExists inp; Stdout loading_record; ImageOpen inp;
       Stdout (info_record width height); Stdout filters_record;
       Enhance Sharpness (3 # 2); Filter EDGE_ENHANCE;
       Enhance Contrast (6 # 5); Filter SMOOTH;
       Stdout overlay_record; NewDraw]
      ++ lfont
      ++ [TextBBox (0, 0) watermark_text f]
      ++ map (shadow_event x y f) (shadow_offsets (shadow_offset (font_size height)))
      ++ [DrawText (x, y) watermark_text f main_fill;
          Stdout saving_record; ImageSave out 95; GetSize out;
          Stdout (success_record inp out width height size)].
Proof.
  destruct (main B argv fs) as [[l fs'] o] eqn:Em. cbn [exit_status snd].
  intros ->. apply main_exit_0 in Em. destruct Em as (prog & inp & out & -> & Hb).
  apply process_image_body_success in Hb.
  destruct Hb as (img & width & height & f & bbox & draw & x & y & final & size
                  & lfont & H1 & H2 & H3 & H4 & H5 & H6 & H7 & H8 & _ & H9).
  exists prog, inp, out, img, width, height, f, bbox, draw, x, y, final, size, lfont.
  cbn [final_filesystem trace fst snd]. repeat split; assumption.
Qed.



(** The streams and the drawing calls of the trace of a successful run. *)
Lemma pipeline_trace_streams (B : Backend) (inp out : string) (width height size : Z)
    (lfont : list (event B)) (f : font B) (x y : Z) (os : list (Z * Z)) :
  forallb (fun e => negb (is_print e)) lfont = true ->
  stdout_of
    ([PathExists inp; Stdout loading_record; ImageOpen inp;
      Stdout (info_record width height); Stdout filters_record;
      Enhance Sharpness (3 # 2); Filter EDGE_ENHANCE;
      Enhance Contrast (6 # 5); Filter SMOOTH;
      Stdout overlay_record; NewDraw]
     ++ lfont
     ++ [TextBBox (0, 0) watermark_text f]
     ++ map (shadow_event x y f) os
     ++ [DrawText (x, y) watermark_text f main_fill;
         Stdout saving_record; ImageSave out 95; GetSize out;
         Stdout (success_record inp out width height size)])
  = [loading_record; info_record width height; filters_record; overlay_record;
     saving_record; success_record inp out width height size].
Proof.
  intros Hquiet.
  destruct (silent_streams B _ Hquiet) as [Hfont _].
  destruct (silent_streams B _ (shadow_events_silent B x y f os)) as [Hshadow _].
  rewrite !stdout_of_app, Hfont, Hshadow. reflexivity.
Qed.

Lemma pipeline_trace_draws (B : Backend) (inp out : string) (width height size : Z)
    (lfont : list (event B)) (f : font B) (x y : Z) (os : list (Z * Z)) :
  filter is_draw_text lfont = [] ->
  filter is_draw_text
    ([PathExists inp; Stdout loading_record; ImageOpen inp;
      Stdout (info_record width height); Stdout filters_record;
      Enhance Sharpness (3 # 2); Filter EDGE_ENHANCE;
      Enhance Contrast (6 # 5); Filter SMOOTH;
      Stdout overlay_record; NewDraw]
     ++ lfont
     ++ [TextBBox (0, 0) watermark_text f]
     ++ map (shadow_event x y f) os
     ++ [DrawText (x, y) watermark_text f main_fill;
         Stdout saving_record; ImageSave out 95; GetSize out;
         Stdout (success_record inp out width height size)])
  = map (shadow_event x y f) os ++ [DrawText (x, y) watermark_text f main_fill].
Proof.
  intros Hfont. rewrite !filter_app, Hfont, shadow_events_draw. reflexivity.
Qed.

Lemma round_half_even_nearest (n d : Z) :
  0 < d -> 2 * Z.abs (n - round_half_even n d * d) <= d.
Proof.
  intros Hd. unfold round_half_even.
  pose proof (Z.div_mod n d ltac:(lia)) as Hdm.
  pose proof (Z.mod_pos_bound n d Hd) as Hr.
  destruct (Z.ltb_spec (2 * (n mod d)) d); [nia|].
  destruct (Z.ltb_spec d (2 * (n mod d))); [nia|].
  destruct (Z.even (n / d)); nia.
Qed.



(** ** The watermark *)

Lemma shadow_event_injective (B : Backend) (x y : Z) (f : font B) :
  Injective (shadow_event x y f).
Proof.
  intros [a b] [a' b'] H. unfold shadow_event in H. cbn [fst snd] in H.
  inversion H. f_equal; lia.
Qed.

(** C3.  On a run that exits with code 0 the calls to [draw.text] are, in
    order: one in opaque black (0, 0, 0, 255) at (x + dx, y + dy) for each
    offset of the loops, then one in (200, 230, 255, 255) at the origin
    (x, y), which is the last.  With s = max(2, font_size // 30), the offsets
    are exactly the pairs of [-s, s] x [-s, s] other than (0, 0), none is
    repeated (so no two shadow calls coincide), and there are
    (2s + 1)^2 - 1 of them. *)
Theorem shadow_then_main_text (B : Backend) (argv : list string) (fs : filesystem B) :
  exit_status (main B argv fs) = Exit 0 ->
  exists prog inp out img width height draw f bbox x y s,
    argv = [prog; inp; out] /\
    Image_open B fs inp = inl img /\
    Image_size B img = (width, height) /\
    Draw_textbbox B draw (0, 0) "SATORU GOJO" f = inl bbox /\
    text_origin width height bbox = (x, y) /\
    s = Z.max 2 (font_size height / 30) /\
    filter is_draw_text (trace (main B argv fs)) =
      map (fun o => DrawText (x + fst o, y + snd o) "SATORU GOJO" f (0, 0, 0, 255))
          (shadow_offsets s)
      ++ [DrawText (x, y) "SATORU GOJO" f (200, 230, 255, 255)] /\
    (forall dx dy,
        In (dx, dy) (shadow_offsets s) <->
        - s <= dx <= s /\ - s <= dy <= s /\ (dx, dy) <> (0, 0)) /\
    NoDup (shadow_offsets s) /\
    NoDup (map (fun o => DrawText (x + fst o, y + snd o) "SATORU GOJO" f (0, 0, 0, 255))
               (shadow_offsets s)) /\
    Z.of_nat (List.length (shadow_offsets s)) = (2 * s + 1) ^ 2 - 1.
Proof.
  intros H. apply successful_run in H.
  destruct H as (prog & inp & out & img & width & height & f & bbox & draw & x & y
                 & final & size & lfont & -> & _ & Hopen & Hsize & Hfont & Hbbox
                 & Horigin & _ & _ & Htrace).
  exists prog, inp, out, img, width, height, draw, f, bbox, x, y,
    (shadow_offset (font_size height)).
  split; [reflexivity|]. split; [exact Hopen|]. split; [exact Hsize|].
  split; [exact Hbbox|]. split; [exact Horigin|]. split; [reflexivity|].
  split.
  { rewrite Htrace. apply pipeline_trace_draws.
    eapply select_font_no_draw; exact Hfont. }
  split; [intros dx dy; apply in_shadow_offsets|].
  split; [apply NoDup_shadow_offsets|].
  split.
  - apply (Injective_map_NoDup (shadow_event_injective B x y f)).
    apply NoDup_shadow_offsets.
  - apply length_shadow_offsets. unfold shadow_offset. lia.
Qed.

Lemma shadow_then_main_text_witness :
  exit_status (main Demo.backend ["image_processor"; "in.png"; "out.png"] Demo.disk0)
  = Exit 0 /\
  exists x y f s,
    filter is_draw_text
      (trace (main Demo.backend ["image_processor"; "in.png"; "out.png"] Demo.disk0)) =
      map (fun o => DrawText (x + fst o, y + snd o) "SATORU GOJO" f (0, 0, 0, 255))
          (shadow_offsets s)
      ++ [DrawText (x, y) "SATORU GOJO" f (200, 230, 255, 255)] /\
    Z.of_nat (List.length (shadow_offsets s)) = (2 * s + 1) ^ 2 - 1.
Proof.
  split; [vm_compute; reflexivity|].
  destruct (shadow_then_main_text Demo.backend
              ["image_processor"; "in.png"; "out.png"] Demo.disk0)
    as (prog & inp & out & img & width & height & draw & f & bbox & x & y & s
        & _ & _ & _ & _ & _ & _ & Hdraws & _ & _ & _ & Hlen).
  - vm_compute; reflexivity.
  - exists x, y, f, s. split; [exact Hdraws|exact Hlen].
Defined.

(** C6.  On a run that exits with code 0, with (W, H) the size of the decoded
    image and (left, top, right, bottom) the box that [draw.textbbox]
    returned for the watermark, the text width is right - left, the text
    height is bottom - top, and the main text is drawn at
    ((W - text_width) // 2, (H - text_height) // 2), each quotient being the
    floor of the half. *)
Theorem text_is_centred (B : Backend) (argv : list string) (fs : filesystem B) :
  exit_status (main B argv fs) = Exit 0 ->
  exists prog inp out img W H draw f left top right bottom,
    argv = [prog; inp; out] /\
    Image_open B fs inp = inl img /\
    Image_size B img = (W, H) /\
    Draw_textbbox B draw (0, 0) watermark_text f = inl (left, top, right, bottom) /\
    let text_width := right - left in
    let text_height := bottom - top in
    let origin_x := (W - text_width) / 2 in
    let origin_y := (H - text_height) / 2 in
    text_origin W H (left, top, right, bottom) = (origin_x, origin_y) /\
    In (DrawText (origin_x, origin_y) watermark_text f main_fill)
       (trace (main B argv fs)) /\
    2 * origin_x <= W - text_width <= 2 * origin_x + 1 /\
    2 * origin_y <= H - text_height <= 2 * origin_y + 1.
Proof.
  intros Hexit. apply successful_run in Hexit.
  destruct Hexit as (prog & inp & out & img & W & H & f & bbox & draw & x & y
                     & final & size & lfont & -> & _ & Hopen & Hsize & Hfont & Hbbox
                     & Horigin & _ & _ & Htrace).
  destruct bbox as [[[left top] right] bottom].
  exists prog, inp, out, img, W, H, draw, f, left, top, right, bottom.
  split; [reflexivity|]. split; [exact Hopen|]. split; [exact Hsize|].
  split; [exact Hbbox|]. cbv zeta.
  unfold text_origin in Horigin. inversion Horigin; subst x y.
  split; [reflexivity|]. split.
  - assert (Hin : In (DrawText ((W - (right - left)) / 2, (H - (bottom - top)) / 2)
                        watermark_text f main_fill)
                     (filter is_draw_text (trace (main B [prog; inp; out] fs)))).
    { rewrite Htrace, pipeline_trace_draws
        by (eapply select_font_no_draw; exact Hfont).
      apply in_or_app. right. left. reflexivity. }
    apply filter_In in Hin. exact (proj1 Hin).
  - pose proof (Z.div_mod (W - (right - left)) 2 ltac:(lia)).
    pose proof (Z.mod_pos_bound (W - (right - left)) 2 ltac:(lia)).
    pose proof (Z.div_mod (H - (bottom - top)) 2 ltac:(lia)).
    pose proof (Z.mod_pos_bound (H - (bottom - top)) 2 ltac:(lia)).
    lia.
Qed.

Lemma text_is_centred_witness :
  exit_status (main Demo.backend ["image_processor"; "in.png"; "out.png"] Demo.disk0)
  = Exit 0 /\
  exists prog inp out img W H draw f left top right bottom,
    ["image_processor"; "in.png"; "out.png"] = [prog; inp; out] /\
    Image_open Demo.backend Demo.disk0 inp = inl img /\
    Image_size Demo.backend img = (W, H) /\
    Draw_textbbox Demo.backend draw (0, 0) watermark_text f
      = inl (left, top, right, bottom) /\
    let text_width := right - left in
    let text_height := bottom - top in
    let origin_x := (W - text_width) / 2 in
    let origin_y := (H - text_height) / 2 in
    text_origin W H (left, top, right, bottom) = (origin_x, origin_y) /\
    In (DrawText (origin_x, origin_y) watermark_text f main_fill)
       (trace (main Demo.backend ["image_processor"; "in.png"; "out.png"] Demo.disk0)) /\
    2 * origin_x <= W - text_width <= 2 * origin_x + 1 /\
    2 * origin_y <= H - text_height <= 2 * origin_y + 1.
Proof.
  split; [vm_compute; reflexivity|].
  apply (text_is_centred Demo.backend
           ["image_processor"; "in.png"; "out.png"] Demo.disk0).
  vm_compute; reflexivity.
Defined.

(** ** Failures *)

Section Failures.

Variable B : Backend.

Lemma emits_only_print (P : event B -> bool) (j : json) :
  P (Stdout j) = true -> emits_only P (print B j).
Proof. intros He fs l fs' r H; inversion H; subst; cbn; rewrite He; reflexivity. Qed.

Lemma emits_only_path_exists (P : event B -> bool) (p : string) :
  P (PathExists p) = true -> emits_only P (path_exists B p).
Proof. intros He fs l fs' r H; inversion H; subst; cbn; rewrite He; reflexivity. Qed.

Lemma emits_only_image_save (P : event B -> bool) (img : image B) (p : string) (q : Z) :
  P (ImageSave p q) = true -> emits_only P (image_save B img p q).
Proof.
  intros He fs l fs' r. unfold image_save.
  destruct (Image_save B img p q fs). intros H; inversion H; subst; cbn.
  rewrite He; reflexivity.
Qed.

Ltac emits_step :=
  first
    [ apply emits_only_bind; [|intros]
    | apply emits_only_try_except; [|intros]
    | apply emits_only_for_in; intros
    | apply emits_only_ret
    | apply emits_only_raise
    | apply emits_only_call; reflexivity
    | apply emits_only_print; reflexivity
    | apply emits_only_path_exists; reflexivity
    | apply emits_only_image_save; reflexivity
    | match goal with
      | |- emits_only _ (if ?b then _ else _) => destruct b
      | |- emits_only _ (let '(_, _) := ?p in _) => destruct p
      end ].

(** The body of the [try] never writes to standard error. *)
Lemma process_image_body_stderr (inp out : string) fs l fs' r :
  process_image_body B inp out fs = (l, fs', r) -> stderr_of l = [].
Proof.
  intros H.
  assert (Hq : emits_only (fun e : event B => negb (is_stderr e))
                 (process_image_body B inp out)).
  { unfold process_image_body, image_open, enhance, filter_image, new_draw,
      select_font, truetype, load_default, textbbox, draw_shadow, draw_text, getsize.
    repeat emits_step. }
  specialize (Hq _ _ _ _ H). clear H.
  induction l as [|e l IH]; [reflexivity|]. cbn [forallb] in Hq.
  apply andb_true_iff in Hq. destruct Hq as [He Hl].
  destruct e; try discriminate He; cbn; auto.
Qed.

Lemma bind_run {A C} (m : M B A) (k : A -> M B C) fs l fs' r :
  bind B m k fs = (l, fs', r) ->
  (exists e, m fs = (l, fs', inr e) /\ r = inr e) \/
  (exists l1 fs1 a l2,
      m fs = (l1, fs1, inl a) /\ k a fs1 = (l2, fs', r) /\ l = l1 ++ l2).
Proof.
  unfold bind. destruct (m fs) as [[l1 fs1] [a|e]].
  - destruct (k a fs1) as [[l2 fs2] r2] eqn:Ek. intros H; inversion H; subst.
    right. exists l1, fs1, a, l2. repeat split; try reflexivity. exact Ek.
  - intros H; inversion H; subst. left. exists e. split; reflexivity.
Qed.

(** With the input in place, a run gets at least as far as opening it. *)
Lemma process_image_body_reaches_open (inp out : string) fs l fs' r :
  os_path_exists B fs inp = true ->
  process_image_body B inp out fs = (l, fs', r) ->
  exists rest, l = [PathExists inp; Stdout loading_record; ImageOpen inp] ++ rest.
Proof.
  intros Hex H. unfold process_image_body in H.
  apply bind_run in H.
  destruct H as [(? & H & _)|(? & ? & found & ? & H1 & H & ->)];
    [discriminate H|].
  inversion H1; subst; clear H1. rewrite Hex in H. cbn [negb] in H.
  apply bind_run in H.
  destruct H as [(? & H & _)|(? & ? & ? & ? & H1 & H & ->)];
    [discriminate H|].
  inversion H1; subst; clear H1.
  apply bind_run in H.
  destruct H as [(? & H & _)|(? & ? & ? & ? & H1 & H & ->)];
    [discriminate H|].
  inversion H1; subst; clear H1.
  apply bind_run in H.
  destruct H as [(? & H & _)|(? & ? & img & rest & H1 & H & ->)].
  - inversion H; subst. exists []. reflexivity.
  - inversion H1; subst. exists rest. reflexivity.
Qed.

Ltac before_font H Hin :=
  apply bind_run in H;
  destruct H as [(? & H & _)|(? & ? & ? & ? & ?Hstep & H & ->)];
  [ inversion H; subst; exfalso; clear - Hin; cbn in Hin;
    repeat (destruct Hin as [Hin|Hin]; [discriminate Hin|]); exact Hin
  | match goal with
    | Hs : _ = (_, _, inl _) |- _ => inversion Hs; subst; clear Hs
    end ].

(** Once the first font is asked for, the run goes on to measure the text,
    whatever the truetype loads answer. *)
Lemma fonts_then_measure (builtin : font B) (inp out : string) fs l fs' r size :
  ImageFont_load_default B = inl builtin ->
  process_image_body B inp out fs = (l, fs', r) ->
  In (LoadTruetype "arial.ttf" size) l ->
  exists f, In (TextBBox (0, 0) watermark_text f) l.
Proof.
  intros Hdefault H Hin. unfold process_image_body in H.
  before_font H Hin.
  match type of H with context [os_path_exists B ?f inp] =>
    destruct (os_path_exists B f inp) end.
  2:{ cbn [negb] in H. apply bind_run in H.
      destruct H as [(? & H & _)|(? & ? & ? & ? & H1 & _)]; [|discriminate H1].
      inversion H; subst. exfalso. cbn in Hin. intuition discriminate. }
  cbn [negb] in H.
  before_font H Hin.
  before_font H Hin.
  before_font H Hin.
  match type of H with context [Image_size B ?i] =>
    destruct (Image_size B i) as [width height] end.
  do 8 before_font H Hin.
  apply bind_run in H.
  destruct H as [(e & H & _)|(lfont & ? & f & ltail & Hfont & H & ->)].
  { exfalso. rewrite select_font_run, Hdefault in H.
    repeat match type of H with
           | context [match ?x with inl _ => _ | inr _ => _ end] => destruct x
           end; discriminate H. }
  exists f.
  assert (Hbox : exists rest, ltail = TextBBox (0, 0) watermark_text f :: rest).
  { apply bind_run in H.
    destruct H as [(? & H & _)|(? & ? & ? & ? & H1 & _ & ->)].
    - inversion H; subst. eexists; reflexivity.
    - inversion H1; subst. eexists; reflexivity. }
  destruct Hbox as (rest & ->).
  repeat first [left; reflexivity | right | apply in_or_app; right].
Qed.

End Failures.

(** ** Font selection *)

(** C9.  Font selection asks for "arial.ttf", then for "Arial.ttf", then for
    the built-in font, and returns the first that loads.  Whatever a
    truetype load raises (an exception of any class) is discarded: no record
    is printed on either stream, the file system is untouched, and, the
    built-in font being available, the selection returns a font and never
    raises.  In the pipeline, every run that asks for the first font goes on
    to measure the text with the font selected. *)
Theorem font_selection_never_fails (B : Backend) (builtin : font B) :
  ImageFont_load_default B = inl builtin ->
  (forall size fs,
      exists l f,
        select_font B size fs = (l, fs, inl f) /\
        stdout_of l = [] /\
        stderr_of l = [] /\
        match ImageFont_truetype B fs "arial.ttf" size with
        | inl arial => f = arial /\ l = [LoadTruetype "arial.ttf" size]
        | inr _ =>
            match ImageFont_truetype B fs "Arial.ttf" size with
            | inl arial =>
                f = arial /\
                l = [LoadTruetype "arial.ttf" size; LoadTruetype "Arial.ttf" size]
            | inr _ =>
                f = builtin /\
                l = [LoadTruetype "arial.ttf" size; LoadTruetype "Arial.ttf" size;
                     LoadDefault]
            end
        end) /\
  (forall inp out fs l fs' r size,
      process_image_body B inp out fs = (l, fs', r) ->
      In (LoadTruetype "arial.ttf" size) l ->
      exists f, In (TextBBox (0, 0) watermark_text f) l).
Proof.
  intros Hdefault. split.
  - intros size fs. rewrite select_font_run, Hdefault.
    destruct (ImageFont_truetype B fs "arial.ttf" size) as [f1|e1];
      [|destruct (ImageFont_truetype B fs "Arial.ttf" size) as [f2|e2]];
      eexists; eexists; repeat split; reflexivity.
  - intros inp out fs l fs' r size. apply fonts_then_measure with (builtin := builtin).
    exact Hdefault.
Qed.

Lemma font_selection_never_fails_witness :
  ImageFont_load_default Demo.backend = inl ("default", 10) /\
  exists l,
    select_font Demo.backend 5 Demo.disk0 = (l, Demo.disk0, inl ("default", 10)) /\
    stderr_of l = [].
Proof.
  split; [reflexivity|].
  destruct (font_selection_never_fails Demo.backend ("default", 10)) as [Hsel _].
  - reflexivity.
  - destruct (Hsel 5 Demo.disk0) as (l & f & Hrun & _ & Herr & Hchain).
    exists l. cbn in Hchain. destruct Hchain as [-> _]. split; assumption.
Defined.

(** ** Exit codes of failing runs *)

(** C1, as amended.  Once the input path is known to exist, a run that fails
    got at least as far as opening the image, printed nothing on standard
    error before the failure, and ends according to the class of the
    exception: any [Exception] other than a [FileNotFoundError] gives exit
    code 2 and one error record tagged with the name of the exception's
    class; a [FileNotFoundError] raised by any later stage gives exit code 1
    and one record tagged "FileNotFoundError", exactly as a missing input
    does; an exception outside [Exception] is not caught. *)
Theorem exit_code_by_failure_class (B : Backend) (prog inp out : string)
    (fs fs' : filesystem B) (l : list (event B)) (e : exn) :
  os_path_exists B fs inp = true ->
  process_image_body B inp out fs = (l, fs', inr e) ->
  (exists rest, l = [PathExists inp; Stdout loading_record; ImageOpen inp] ++ rest) /\
  final_filesystem (main B [prog; inp; out] fs) = fs' /\
  match exn_class_of e with
  | ExceptionClass =>
      exit_status (main B [prog; inp; out] fs) = Exit 2 /\
      trace (main B [prog; inp; out] fs) =
        l ++ [Stderr (error_record ("Processing failed: " ++ exn_str e)%string
                                   (exn_name e))] /\
      stderr_of (trace (main B [prog; inp; out] fs)) =
        [error_record ("Processing failed: " ++ exn_str e)%string (exn_name e)]
  | FileNotFoundClass =>
      exit_status (main B [prog; inp; out] fs) = Exit 1 /\
      trace (main B [prog; inp; out] fs) =
        l ++ [Stderr (error_record (exn_str e) "FileNotFoundError")] /\
      stderr_of (trace (main B [prog; inp; out] fs)) =
        [error_record (exn_str e) "FileNotFoundError"]
  | BaseExceptionClass =>
      exit_status (main B [prog; inp; out] fs) = Uncaught e /\
      trace (main B [prog; inp; out] fs) = l /\
      stderr_of (trace (main B [prog; inp; out] fs)) = []
  end.
Proof.
  intros Hex Hbody.
  pose proof (process_image_body_stderr B _ _ _ _ _ _ Hbody) as Hquiet.
  split; [exact (process_image_body_reaches_open B _ _ _ _ _ _ Hex Hbody)|].
  unfold main, process_image, try_except, process_image_handler.
  cbn [List.length Nat.eqb negb nth]. rewrite Hbody.
  destruct (exn_class_of e); unfold bind, eprint, ret, raise;
    cbn [exit_status trace final_filesystem fst snd app];
    rewrite ?app_nil_r; repeat split; try reflexivity; try exact Hquiet;
    rewrite stderr_of_app, Hquiet; reflexivity.
Qed.

Lemma exit_code_by_failure_class_witness :
  os_path_exists Demo.backend Demo.disk0 "notes.txt" = true /\
  process_image_body Demo.backend "notes.txt" "out.png" Demo.disk0 =
    ([PathExists "notes.txt"; Stdout loading_record; ImageOpen "notes.txt"],
     Demo.disk0,
     inr (mkExn ExceptionClass "UnidentifiedImageError"
            "cannot identify image file notes.txt")) /\
  exit_status (main Demo.backend ["image_processor"; "notes.txt"; "out.png"] Demo.disk0)
  = Exit 2 /\
  stderr_of (trace (main Demo.backend ["image_processor"; "notes.txt"; "out.png"]
                      Demo.disk0))
  = [error_record "Processing failed: cannot identify image file notes.txt"
       "UnidentifiedImageError"].
Proof.
  split; [reflexivity|]. split; [reflexivity|].
  destruct (exit_code_by_failure_class Demo.backend "image_processor" "notes.txt"
              "out.png" Demo.disk0 Demo.disk0
              [PathExists "notes.txt"; Stdout loading_record; ImageOpen "notes.txt"]
              (mkExn ExceptionClass "UnidentifiedImageError"
                 "cannot identify image file notes.txt"))
    as (_ & _ & Hexit & _ & Herr).
  - reflexivity.
  - reflexivity.
  - split; [exact Hexit|exact Herr].
Defined.

(** C1 as stated fails: the input exists, the pipeline runs up to the save,
    the save raises [FileNotFoundError] because the directory of the output
    path is missing, and the run exits with code 1, not 2. *)
Lemma late_file_not_found_exits_1 :
  os_path_exists Demo.backend Demo.disk2 "in.png" = true /\
  last (removelast
          (trace (main Demo.backend ["image_processor"; "in.png"; "missing/out.png"]
                    Demo.disk2))) (Stdout (JStr ""))
  = ImageSave "missing/out.png" 95 /\
  stderr_of (trace (main Demo.backend ["image_processor"; "in.png"; "missing/out.png"]
                      Demo.disk2))
  = [error_record "[Errno 2] No such file or directory: 'missing/out.png'"
       "FileNotFoundError"] /\
  exit_status (main Demo.backend ["image_processor"; "in.png"; "missing/out.png"]
                 Demo.disk2) = Exit 1 /\
  exit_status (main Demo.backend ["image_processor"; "in.png"; "missing/out.png"]
                 Demo.disk2) <> Exit 2.
Proof.
  repeat split; try (vm_compute; reflexivity).
  vm_compute. discriminate.
Qed.

(** ** The font size *)

(** C2, as amended.  For every height from 0 up to 2^52 the font size is
    [int(height * 0.05)]: the binary64 product truncated, which is the
    integer quotient of the height by 20. *)
Theorem font_size_is_truncation (height : Z) :
  0 <= height < 2 ^ 52 -> font_size height = height / 20.
Proof.
  intros Hh. destruct (Z.eq_dec height 0) as [->|Hnz]; [reflexivity|].
  unfold font_size.
  rewrite Z.abs_eq, Z.sgn_pos, float_of_nonneg_exact by lia.
  rewrite font_size_floor_pos by lia. lia.
Qed.

Lemma font_size_is_truncation_witness :
  0 <= 533 < 2 ^ 52 /\ font_size 533 = 533 / 20.
Proof.
  split; [lia|]. apply (font_size_is_truncation 533). lia.
Defined.

(** C2 as stated fails: for the 800x533 photograph the program asks for a
    font of 26 pixels (the twelfth event of the run is the first font
    request), while [round(533 * 0.05)] is 27. *)
Lemma font_size_is_not_rounded :
  font_size 533 = 26 /\
  spec_font_size 533 = 27 /\
  nth 11 (trace (main Demo.backend ["image_processor"; "photo.jpg"; "out.jpg"]
                   Demo.disk1)) NewDraw
  = LoadTruetype "arial.ttf" 26 /\
  font_size 533 <> spec_font_size 533.
Proof.
  split; [vm_compute; reflexivity|].
  split; [vm_compute; reflexivity|].
  split; [vm_compute; reflexivity|].
  vm_compute. discriminate.
Qed.

(** * Further properties of the program *)

(** ** The shape of every run *)

Section Shapes.

Variable B : Backend.

Lemma draw_texts_app (d : image B) (text : string) (f : font B)
    (c1 c2 : list (Z * Z * color)) :
  draw_texts B d text f (c1 ++ c2) =
  match draw_texts B d text f c1 with
  | inl d1 => draw_texts B d1 text f c2
  | inr e => inr e
  end.
Proof.
  revert d. induction c1 as [|[xy fill] c1 IH]; intros d; [reflexivity|].
  cbn [app draw_texts]. destruct (Draw_text B d xy text f fill); [apply IH|reflexivity].
Qed.

(** One row of the shadow loop, however it ends. *)
Lemma shadow_row_outcome (ys : list Z) (ox x y : Z) (f : font B) :
  forall d fs l fs' r,
    for_in B ys (fun offset_y draw =>
      if negb (ox =? 0) || negb (offset_y =? 0)
      then draw_text B draw (x + ox, y + offset_y) watermark_text f shadow_fill
      else ret B draw) d fs = (l, fs', r) ->
    fs' = fs /\
    forallb is_overlay_call l = true /\
    r = draw_texts B d watermark_text f (map (shadow_call x y) (shadow_row ox ys)).
Proof.
  induction ys as [|oy ys IH]; intros d fs l fs' r H; cbn [for_in] in H.
  - inversion H; subst. auto.
  - unfold shadow_row. cbn [flat_map].
    fold (shadow_row ox ys).
    apply bind_run in H. destruct (negb (ox =? 0) || negb (oy =? 0)).
    + cbn [app map draw_texts shadow_call fst snd].
      destruct H as [(e & H & ->)|(l1 & fs1 & d1 & l2 & H1 & H & ->)].
      * unfold draw_text, call in H. injection H as <- <- Hr.
        rewrite Hr. auto.
      * unfold draw_text, call in H1. injection H1 as <- <- Hr.
        rewrite Hr. apply IH in H. destruct H as (-> & Hl & ->). auto.
    + cbn [app].
      destruct H as [(e & H & ->)|(l1 & fs1 & d1 & l2 & H1 & H & ->)];
        [discriminate H|].
      inversion H1; subst. apply IH in H. exact H.
Qed.

(** The two loops, however they end. *)
Lemma shadow_rows_outcome (xs ys : list Z) (x y : Z) (f : font B) :
  forall d fs l fs' r,
    for_in B xs (fun offset_x draw =>
      for_in B ys (fun offset_y draw =>
        if negb (offset_x =? 0) || negb (offset_y =? 0)
        then draw_text B draw (x + offset_x, y + offset_y) watermark_text f shadow_fill
        else ret B draw) draw) d fs = (l, fs', r) ->
    fs' = fs /\
    forallb is_overlay_call l = true /\
    r = draw_texts B d watermark_text f
          (map (shadow_call x y) (flat_map (fun ox => shadow_row ox ys) xs)).
Proof.
  induction xs as [|ox xs IH]; intros d fs l fs' r H; cbn [for_in] in H.
  - inversion H; subst. auto.
  - cbn [flat_map]. rewrite map_app, draw_texts_app.
    apply bind_run in H.
    destruct H as [(e & H & ->)|(l1 & fs1 & d1 & l2 & H1 & H & ->)].
    + apply shadow_row_outcome in H. destruct H as (-> & Hl & <-). auto.
    + apply shadow_row_outcome in H1. destruct H1 as (-> & Hl1 & <-).
      apply IH in H. destruct H as (-> & Hl2 & ->).
      rewrite forallb_app, Hl1, Hl2. auto.
Qed.

Lemma draw_shadow_outcome (d : image B) (x y : Z) (f : font B) (size : Z) fs l fs' r :
  draw_shadow B d x y f size fs = (l, fs', r) ->
  fs' = fs /\
  forallb is_overlay_call l = true /\
  r = draw_texts B d watermark_text f (shadow_calls x y (shadow_offset size)).
Proof. unfold draw_shadow, shadow_calls, shadow_offsets. apply shadow_rows_outcome. Qed.

Lemma select_font_outcome (size : Z) fs l fs' r :
  select_font B size fs = (l, fs', r) ->
  fs' = fs /\ forallb is_overlay_call l = true.
Proof.
  rewrite select_font_run.
  destruct (ImageFont_truetype B fs "arial.ttf" size);
    [|destruct (ImageFont_truetype B fs "Arial.ttf" size)];
    intros H; inversion H; auto.
Qed.

Lemma overlay_calls_silent (l : list (event B)) :
  forallb is_overlay_call l = true ->
  stdout_of l = [] /\ stderr_of l = [] /\
  filter is_save l = [] /\ filter is_filter_call l = [].
Proof.
  induction l as [|e l IH]; [auto|]. cbn [forallb]. intros H.
  apply andb_true_iff in H. destruct H as [He Hl].
  destruct (IH Hl) as (H1 & H2 & H3 & H4).
  destruct e; try discriminate He; cbn; auto.
Qed.

Ltac shape_destruct H :=
  match type of H with
  | context [os_path_exists B ?a ?b] => destruct (os_path_exists B a b) eqn:?
  | context [Image_open B ?a ?b] => destruct (Image_open B a b) eqn:?
  | context [Image_size B ?a] => destruct (Image_size B a) eqn:?
  | context [ImageEnhance_enhance B ?a ?b ?c] =>
      destruct (ImageEnhance_enhance B a b c) eqn:?
  | context [Image_filter B ?a ?b] => destruct (Image_filter B a b) eqn:?
  | context [ImageDraw_Draw B ?a] => destruct (ImageDraw_Draw B a) eqn:?
  | context [select_font B ?a ?b] =>
      let Hf := fresh "Hfont" in
      destruct (select_font B a b) as [[? ?] [?|?]] eqn:Hf;
      destruct (select_font_outcome _ _ _ _ _ Hf) as [-> ?]
  | context [Draw_textbbox B ?a ?b ?c ?d] => destruct (Draw_textbbox B a b c d) eqn:?
  | context [text_origin ?a ?b ?c] => destruct (text_origin a b c) eqn:?
  | context [draw_shadow B ?a ?b ?c ?d ?e ?g] =>
      let Hs := fresh "Hshadow" in
      destruct (draw_shadow B a b c d e g) as [[? ?] [?|?]] eqn:Hs;
      destruct (draw_shadow_outcome _ _ _ _ _ _ _ _ _ Hs) as (-> & ? & ?)
  | context [Draw_text B ?a ?b ?c ?d ?e] => destruct (Draw_text B a b c d e) eqn:?
  | context [Image_save B ?a ?b ?c ?d] =>
      destruct (Image_save B a b c d) as [? [[]|?]] eqn:?
  | context [os_path_getsize B ?a ?b] => destruct (os_path_getsize B a b) eqn:?
  end; cbv beta iota zeta in H.

Ltac silent_facts :=
  repeat match goal with
         | Hs : forallb is_overlay_call ?l = true |- _ =>
             let H1 := fresh in let H2 := fresh in
             let H3 := fresh in let H4 := fresh in
             destruct (overlay_calls_silent _ Hs) as (H1 & H2 & H3 & H4);
             unfold stdout_of, stderr_of in H1, H2;
             clear Hs
         end.

Ltac read_trace :=
  unfold stdout_of;
  repeat first
    [ progress cbn [flat_map filter is_save is_filter_call app]
    | rewrite flat_map_app
    | rewrite filter_app
    | match goal with
      | Hs : flat_map _ ?l = [] |- context [flat_map _ ?l] => rewrite Hs
      | Hs : filter _ ?l = [] |- context [filter _ ?l] => rewrite Hs
      end ].

Ltac finish_early :=
  left; split; [eexists; reflexivity|]; split; [reflexivity|];
  silent_facts;
  split; [read_trace; reflexivity|];
  split;
  [ first [ match goal with
            | Hsz : Image_size B _ = (?w, ?h) |- _ => exists w, h
            end
          | exists 0, 0 ];
    eexists; read_trace; reflexivity
  | eexists; read_trace; reflexivity ].

Lemma process_image_body_shape (inp out : string) fs l fs' r :
  process_image_body B inp out fs = (l, fs', r) ->
  ((exists e, r = inr e) /\
   fs' = fs /\
   filter is_save l = [] /\
   (exists width height rest,
       [loading_record; info_record width height; filters_record; overlay_record]
       = stdout_of l ++ rest) /\
   (exists rest,
       [Enhance Sharpness (3 # 2); Filter EDGE_ENHANCE;
        Enhance Contrast (6 # 5); Filter SMOOTH]
       = filter is_filter_call l ++ rest))
  \/
  (exists img width height i1 i2 i3 i4 d0 lfont f bbox x y final post,
      os_path_exists B fs inp = true /\
      Image_open B fs inp = inl img /\
      Image_size B img = (width, height) /\
      ImageEnhance_enhance B Sharpness img (3 # 2) = inl i1 /\
      Image_filter B i1 EDGE_ENHANCE = inl i2 /\
      ImageEnhance_enhance B Contrast i2 (6 # 5) = inl i3 /\
      Image_filter B i3 SMOOTH = inl i4 /\
      ImageDraw_Draw B i4 = inl d0 /\
      select_font B (font_size height) fs = (lfont, fs, inl f) /\
      Draw_textbbox B d0 (0, 0) watermark_text f = inl bbox /\
      text_origin width height bbox = (x, y) /\
      draw_texts B d0 watermark_text f
        (shadow_calls x y (shadow_offset (font_size height)) ++ [((x, y), main_fill)])
      = inl final /\
      fs' = fst (Image_save B final out 95 fs) /\
      l = [PathExists inp; Stdout loading_record; ImageOpen inp;
           Stdout (info_record width height); Stdout filters_record;
           Enhance Sharpness (3 # 2); Filter EDGE_ENHANCE;
           Enhance Contrast (6 # 5); Filter SMOOTH;
           Stdout overlay_record; NewDraw]
          ++ lfont
          ++ [TextBBox (0, 0) watermark_text f]
          ++ map (shadow_event x y f) (shadow_offsets (shadow_offset (font_size height)))
          ++ [DrawText (x, y) watermark_text f main_fill;
              Stdout saving_record; ImageSave out 95]
          ++ post /\
      match snd (Image_save B final out 95 fs) with
      | inr e => post = [] /\ r = inr e
      | inl _ =>
          match os_path_getsize B fs' out with
          | inr e => post = [GetSize out] /\ r = inr e
          | inl size =>
              post = [GetSize out; Stdout (success_record inp out width height size)]
              /\ r = inl 0
          end
      end).
Proof.
  intros H. unfold process_image_body in H.
  cbv beta iota zeta delta [bind call print path_exists image_open enhance
    filter_image new_draw textbbox draw_text image_save getsize ret raise negb] in H.
  repeat shape_destruct H.
  all: injection H as <- <- <-.
  all: try solve [finish_early].
  all: right;
    match goal with
    | Hop : Image_open B _ _ = inl ?img, Hsz : Image_size B ?img = (?w, ?h),
      H1 : ImageEnhance_enhance B Sharpness ?img _ = inl ?i1,
      H2 : Image_filter B ?i1 EDGE_ENHANCE = inl ?i2,
      H3 : ImageEnhance_enhance B Contrast ?i2 _ = inl ?i3,
      H4 : Image_filter B ?i3 SMOOTH = inl ?i4,
      H5 : ImageDraw_Draw B ?i4 = inl ?d0,
      Hf : select_font B _ _ = (?lfont, _, inl ?f),
      Hb : Draw_textbbox B ?d0 _ _ ?f = inl ?bbox,
      Ho : text_origin ?w ?h ?bbox = (?x, ?y),
      Hs : draw_shadow B ?d0 ?x ?y ?f _ _ = (?lsh, _, inl ?d1),
      Hc : inl ?d1 = draw_texts B ?d0 _ ?f _,
      Hm : Draw_text B ?d1 _ _ _ _ = inl ?final,
      Hv : Image_save B ?final _ _ _ = _ |- _ =>
        exists img, w, h, i1, i2, i3, i4, d0, lfont, f, bbox, x, y, final;
        eexists;
        apply draw_shadow_run in Hs; destruct Hs as [-> _];
        repeat (split; [first [eassumption|reflexivity]|]);
        split; [rewrite draw_texts_app, <- Hc; cbn [draw_texts]; rewrite Hm; reflexivity|];
        rewrite Hv; cbn [fst snd];
        split; [reflexivity|];
        split; [repeat (rewrite <- app_assoc || cbn [app]); reflexivity|]
    end.
  all: try match goal with
           | Hg : os_path_getsize B _ _ = _ |- _ => rewrite Hg
           end.
  all: split; reflexivity.
Qed.

(** [main] on three arguments, from the run of the body. *)
Lemma main_of_body (prog inp out : string) fs l fs' r :
  process_image_body B inp out fs = (l, fs', r) ->
  main B [prog; inp; out] fs =
  match r with
  | inl c => (l, fs', Exit c)
  | inr e =>
      match exn_class_of e with
      | FileNotFoundClass =>
          (l ++ [Stderr (error_record (exn_str e) "FileNotFoundError")], fs', Exit 1)
      | ExceptionClass =>
          (l ++ [Stderr (error_record ("Processing failed: " ++ exn_str e)%string
                           (exn_name e))],
           fs', Exit 2)
      | BaseExceptionClass => (l, fs', Uncaught e)
      end
  end.
Proof.
  intros Hb. unfold main, process_image, try_except, process_image_handler.
  cbn [List.length Nat.eqb negb nth]. rewrite Hb.
  destruct r as [c|e]; [reflexivity|].
  destruct (exn_class_of e); unfold bind, eprint, ret, raise;
    cbn [app]; rewrite ?app_nil_r; reflexivity.
Qed.

Lemma argv_cases (argv : list string) :
  List.length argv <> 3%nat \/ exists prog inp out, argv = [prog; inp; out].
Proof.
  destruct argv as [|prog [|inp [|out [|extra argv]]]]; cbn;
    try (left; discriminate).
  right. exists prog, inp, out. reflexivity.
Qed.

Lemma main_usage (argv : list string) (fs : filesystem B) :
  List.length argv <> 3%nat -> main B argv fs = ([Stderr usage_record], fs, Exit 1).
Proof.
  intros H. unfold main.
  destruct (Nat.eqb_spec (List.length argv) 3) as [E|_]; [contradiction|reflexivity].
Qed.

Lemma shadow_events_overlay (x y : Z) (f : font B) (os : list (Z * Z)) :
  forallb is_overlay_call (map (shadow_event x y f) os) = true.
Proof. induction os as [|o os IH]; [reflexivity|exact IH]. Qed.

(** What [main] adds to the run of the body: nothing, or the error record. *)
Lemma main_run_of_body (prog inp out : string) fs l fs' r :
  process_image_body B inp out fs = (l, fs', r) ->
  exists tail,
    trace (main B [prog; inp; out] fs) = l ++ tail /\
    final_filesystem (main B [prog; inp; out] fs) = fs' /\
    (tail = [] \/ exists j, tail = [Stderr j]) /\
    (r = inl 0 -> exit_status (main B [prog; inp; out] fs) = Exit 0) /\
    (forall e, r = inr e -> exit_status (main B [prog; inp; out] fs) <> Exit 0).
Proof.
  intros Hb. rewrite (main_of_body prog inp out fs l fs' r Hb).
  destruct r as [c|e].
  - exists []. cbn [trace final_filesystem exit_status fst snd].
    rewrite app_nil_r. repeat split; auto.
    + intros Hc; inversion Hc; reflexivity.
    + intros e He; discriminate He.
  - destruct (exn_class_of e); cbn [trace final_filesystem exit_status fst snd];
      [eexists; repeat split; eauto; try discriminate..
      |exists []; rewrite app_nil_r; repeat split; auto; try discriminate].
Qed.

Lemma tail_reads (tail : list (event B)) :
  tail = [] \/ (exists j, tail = [Stderr j]) ->
  stdout_of tail = [] /\ filter is_save tail = [] /\ filter is_filter_call tail = [].
Proof. intros [->|(j & ->)]; auto. Qed.

(** X3.  The file system changes only through [img.save]: a run either
    makes no save and leaves the file system as it was, or makes exactly one,
    to the output path with quality 95, and the final file system is the one
    that call left. *)
Theorem file_system_changes_only_by_save (argv : list string) (fs : filesystem B) :
  (filter is_save (trace (main B argv fs)) = [] /\
   final_filesystem (main B argv fs) = fs)
  \/
  (exists prog inp out final,
      argv = [prog; inp; out] /\
      filter is_save (trace (main B argv fs)) = [ImageSave out 95] /\
      final_filesystem (main B argv fs) = fst (Image_save B final out 95 fs)).
Proof.
  destruct (argv_cases argv) as [Hn|(prog & inp & out & ->)].
  - rewrite (main_usage argv fs Hn). left. auto.
  - destruct (process_image_body B inp out fs) as [[l fs'] r] eqn:Hb.
    destruct (main_run_of_body prog inp out _ _ _ _ Hb) as (tail & -> & -> & Ht & _).
    destruct (tail_reads _ Ht) as (_ & Hts & _).
    rewrite filter_app, Hts, app_nil_r.
    apply process_image_body_shape in Hb.
    destruct Hb as [(_ & -> & Hs & _)|Hb]; [left; auto|right].
    destruct Hb as (img & width & height & i1 & i2 & i3 & i4 & d0 & lfont & f & bbox
                    & x & y & final & post & _ & _ & _ & _ & _ & _ & _ & _ & Hfont & _
                    & _ & _ & -> & -> & Hpost).
    exists prog, inp, out, final. split; [reflexivity|]. split; [|reflexivity].
    destruct (select_font_outcome _ _ _ _ _ Hfont) as [_ Hf].
    pose proof (shadow_events_overlay x y f
                  (shadow_offsets (shadow_offset (font_size height)))) as Hsh.
    assert (Hp : filter is_save post = []).
    { destruct (snd (Image_save B final out 95 fs)).
      - destruct (os_path_getsize B _ out); destruct Hpost as [-> _]; reflexivity.
      - destruct Hpost as [-> _]; reflexivity. }
    silent_facts. read_trace. reflexivity.
Qed.

(** Reading the trace of a run that reached the save. *)
Lemma saved_trace_reads (inp out : string) (width height : Z) (lfont : list (event B))
    (f : font B) (x y : Z) (os : list (Z * Z)) (post : list (event B)) :
  forallb is_overlay_call lfont = true ->
  let l := [PathExists inp; Stdout loading_record; ImageOpen inp;
            Stdout (info_record width height); Stdout filters_record;
            Enhance Sharpness (3 # 2); Filter EDGE_ENHANCE;
            Enhance Contrast (6 # 5); Filter SMOOTH;
            Stdout overlay_record; NewDraw]
           ++ lfont
           ++ [TextBBox (0, 0) watermark_text f]
           ++ map (shadow_event x y f) os
           ++ [DrawText (x, y) watermark_text f main_fill;
               Stdout saving_record; ImageSave out 95]
           ++ post in
  filter is_save l = ImageSave out 95 :: filter is_save post /\
  stdout_of l =
    [loading_record; info_record width height; filters_record; overlay_record;
     saving_record] ++ stdout_of post /\
  filter is_filter_call l =
    [Enhance Sharpness (3 # 2); Filter EDGE_ENHANCE;
     Enhance Contrast (6 # 5); Filter SMOOTH] ++ filter is_filter_call post.
Proof.
  intros Hf l. subst l.
  pose proof (shadow_events_overlay x y f os) as Hsh.
  silent_facts. repeat split; read_trace; reflexivity.
Qed.

(** X4.  Whenever a save is attempted it is to the output path with quality
    95, and the image saved is the opened image after sharpness 1.5,
    EDGE_ENHANCE, contrast 1.2 and SMOOTH, applied in this order, with every
    shadow draw and then the main text drawn on it: no save is attempted when
    an earlier stage raised. *)
Theorem saved_image_is_the_composition (argv : list string) (fs : filesystem B)
    (p : string) (q : Z) :
  In (ImageSave p q) (trace (main B argv fs)) ->
  exists prog inp out img width height i1 i2 i3 i4 d0 f bbox x y final,
    argv = [prog; inp; out] /\
    p = out /\ q = 95 /\
    Image_open B fs inp = inl img /\
    Image_size B img = (width, height) /\
    ImageEnhance_enhance B Sharpness img (3 # 2) = inl i1 /\
    Image_filter B i1 EDGE_ENHANCE = inl i2 /\
    ImageEnhance_enhance B Contrast i2 (6 # 5) = inl i3 /\
    Image_filter B i3 SMOOTH = inl i4 /\
    ImageDraw_Draw B i4 = inl d0 /\
    Draw_textbbox B d0 (0, 0) watermark_text f = inl bbox /\
    text_origin width height bbox = (x, y) /\
    draw_texts B d0 watermark_text f
      (shadow_calls x y (shadow_offset (font_size height)) ++ [((x, y), main_fill)])
    = inl final /\
    final_filesystem (main B argv fs) = fst (Image_save B final out 95 fs).
Proof.
  intros Hin.
  assert (Hsave : In (ImageSave p q) (filter is_save (trace (main B argv fs))))
    by (apply filter_In; split; [exact Hin|reflexivity]).
  clear Hin. revert Hsave.
  destruct (argv_cases argv) as [Hn|(prog & inp & out & ->)].
  { rewrite (main_usage argv fs Hn). intros []. }
  destruct (process_image_body B inp out fs) as [[l fs'] r] eqn:Hb.
  destruct (main_run_of_body prog inp out _ _ _ _ Hb) as (tail & -> & -> & Ht & _).
  destruct (tail_reads _ Ht) as (_ & Hts & _).
  rewrite filter_app, Hts, app_nil_r.
  apply process_image_body_shape in Hb.
  destruct Hb as [(_ & _ & -> & _)|Hb]; [intros []|].
  destruct Hb as (img & width & height & i1 & i2 & i3 & i4 & d0 & lfont & f & bbox
                  & x & y & final & post & _ & H1 & H2 & H3 & H4 & H5 & H6 & H7 & Hfont
                  & H8 & H9 & H10 & -> & -> & Hpost).
  destruct (select_font_outcome _ _ _ _ _ Hfont) as [_ Hf].
  destruct (saved_trace_reads inp out width height lfont f x y
              (shadow_offsets (shadow_offset (font_size height))) post Hf)
    as (-> & _ & _).
  assert (Hp : filter is_save post = []).
  { destruct (snd (Image_save B final out 95 fs)).
    - destruct (os_path_getsize B _ out); destruct Hpost as [-> _]; reflexivity.
    - destruct Hpost as [-> _]; reflexivity. }
  rewrite Hp. intros [Heq|[]]. inversion Heq; subst.
  exists prog, inp, p, img, width, height, i1, i2, i3, i4, d0, f, bbox, x, y, final.
  repeat split; assumption.
Qed.

(** X5.  On every run, whatever its outcome, the records on standard output
    are an initial part of the six progress records in pipeline order; all
    six are there only when the run exits with code 0. *)
Theorem stdout_is_a_prefix (argv : list string) (fs : filesystem B) :
  exists inp out width height size rest,
    [loading_record; info_record width height; filters_record; overlay_record;
     saving_record; success_record inp out width height size]
    = stdout_of (trace (main B argv fs)) ++ rest /\
    (rest = [] -> exit_status (main B argv fs) = Exit 0).
Proof.
  destruct (argv_cases argv) as [Hn|(prog & inp & out & ->)].
  { rewrite (main_usage argv fs Hn). exists "", "", 0, 0, 0. eexists.
    split; [reflexivity|discriminate]. }
  destruct (process_image_body B inp out fs) as [[l fs'] r] eqn:Hb.
  destruct (main_run_of_body prog inp out _ _ _ _ Hb) as (tail & -> & _ & Ht & Hok & _).
  destruct (tail_reads _ Ht) as (Hts & _ & _).
  rewrite stdout_of_app, Hts, app_nil_r.
  apply process_image_body_shape in Hb.
  destruct Hb as [(_ & _ & _ & (width & height & rest & Hpre) & _)|Hb].
  { exists inp, out, width, height, 0,
      (rest ++ [saving_record; success_record inp out width height 0]).
    split.
    - rewrite app_assoc, <- Hpre. reflexivity.
    - intros Hnil. apply app_eq_nil in Hnil. destruct Hnil as [_ Hnil].
      discriminate Hnil. }
  destruct Hb as (img & width & height & i1 & i2 & i3 & i4 & d0 & lfont & f & bbox
                  & x & y & final & post & _ & _ & _ & _ & _ & _ & _ & _ & Hfont
                  & _ & _ & _ & _ & -> & Hpost).
  destruct (select_font_outcome _ _ _ _ _ Hfont) as [_ Hf].
  destruct (saved_trace_reads inp out width height lfont f x y
              (shadow_offsets (shadow_offset (font_size height))) post Hf)
    as (_ & -> & _).
  destruct (snd (Image_save B final out 95 fs)).
  - destruct (os_path_getsize B fs' out) as [size|e]; destruct Hpost as [-> ->].
    + exists inp, out, width, height, size, []. split; [reflexivity|].
      intros _. apply Hok. reflexivity.
    + exists inp, out, width, height, 0. eexists. split; [reflexivity|discriminate].
  - destruct Hpost as [-> ->].
    exists inp, out, width, height, 0. eexists. split; [reflexivity|discriminate].
Qed.

(** X6.  On every run the filter calls made are an initial part of:
    sharpness 1.5, EDGE_ENHANCE, contrast 1.2, SMOOTH.  No filter is called
    out of order or twice. *)
Theorem filters_run_in_order (argv : list string) (fs : filesystem B) :
  exists rest,
    [Enhance Sharpness (3 # 2); Filter EDGE_ENHANCE;
     Enhance Contrast (6 # 5); Filter SMOOTH]
    = filter is_filter_call (trace (main B argv fs)) ++ rest.
Proof.
  destruct (argv_cases argv) as [Hn|(prog & inp & out & ->)].
  { rewrite (main_usage argv fs Hn). eexists. reflexivity. }
  destruct (process_image_body B inp out fs) as [[l fs'] r] eqn:Hb.
  destruct (main_run_of_body prog inp out _ _ _ _ Hb) as (tail & -> & _ & Ht & _).
  destruct (tail_reads _ Ht) as (_ & _ & Hts).
  rewrite filter_app, Hts, app_nil_r.
  apply process_image_body_shape in Hb.
  destruct Hb as [(_ & _ & _ & _ & Hpre)|Hb]; [exact Hpre|].
  destruct Hb as (img & width & height & i1 & i2 & i3 & i4 & d0 & lfont & f & bbox
                  & x & y & final & post & _ & _ & _ & _ & _ & _ & _ & _ & Hfont
                  & _ & _ & _ & _ & -> & Hpost).
  destruct (select_font_outcome _ _ _ _ _ Hfont) as [_ Hf].
  destruct (saved_trace_reads inp out width height lfont f x y
              (shadow_offsets (shadow_offset (font_size height))) post Hf)
    as (_ & _ & ->).
  exists []. rewrite app_nil_r.
  destruct (snd (Image_save B final out 95 fs)).
  - destruct (os_path_getsize B fs' out); destruct Hpost as [-> _]; reflexivity.
  - destruct Hpost as [-> _]; reflexivity.
Qed.

(** X1.  A run of [main] ends with exit code 0, 1 or 2 and no other; the
    only alternative is an exception outside [Exception], which no handler of
    the program catches. *)
Theorem exit_status_cases (argv : list string) (fs : filesystem B) :
  exit_status (main B argv fs) = Exit 0 \/
  exit_status (main B argv fs) = Exit 1 \/
  exit_status (main B argv fs) = Exit 2 \/
  exists e, exit_status (main B argv fs) = Uncaught e /\
            exn_class_of e = BaseExceptionClass.
Proof.
  destruct (argv_cases argv) as [Hn|(prog & inp & out & ->)].
  - rewrite (main_usage argv fs Hn). auto.
  - destruct (process_image_body B inp out fs) as [[l fs'] r] eqn:Hb.
    rewrite (main_of_body prog inp out fs l fs' r Hb).
    destruct r as [c|e].
    + apply process_image_body_success in Hb.
      destruct Hb as (? & ? & ? & ? & ? & ? & ? & ? & ? & ? & ? & ? & ? & ? & ? & ? & ?
                      & ? & ? & -> & _).
      auto.
    + destruct (exn_class_of e) eqn:Hc; cbn; eauto 6.
Qed.


Ltac paths_step :=
  first
    [ apply emits_only_bind; [|intros]
    | apply emits_only_try_except; [|intros]
    | apply emits_only_for_in; intros
    | apply emits_only_ret
    | apply emits_only_raise
    | apply emits_only_call; cbn; rewrite ?String.eqb_refl; reflexivity
    | apply emits_only_print; reflexivity
    | apply emits_only_path_exists; cbn; rewrite ?String.eqb_refl; reflexivity
    | apply emits_only_image_save; cbn; rewrite ?String.eqb_refl; reflexivity
    | match goal with
      | |- emits_only _ (if ?b then _ else _) => destruct b
      | |- emits_only _ (let '(_, _) := ?p in _) => destruct p
      end ].

Lemma process_image_body_paths (inp out : string) :
  emits_only (uses_paths inp out) (process_image_body B inp out).
Proof.
  unfold process_image_body, image_open, enhance, filter_image, new_draw,
    select_font, truetype, load_default, textbbox, draw_shadow, draw_text, getsize.
  repeat paths_step.
Qed.

(** X8.  Every file-system call of a run names the path it should: the
    existence check and the open only [argv[1]], the save (with quality 95)
    and the size query only [argv[2]]. *)
Theorem paths_are_respected (argv : list string) (fs : filesystem B) :
  forallb (uses_paths (nth 1 argv "") (nth 2 argv "")) (trace (main B argv fs)) = true.
Proof.
  destruct (argv_cases argv) as [Hn|(prog & inp & out & ->)].
  - rewrite (main_usage argv fs Hn). reflexivity.
  - cbn [nth].
    destruct (process_image_body B inp out fs) as [[l fs'] r] eqn:Hb.
    destruct (main_run_of_body prog inp out _ _ _ _ Hb) as (tail & -> & _ & Ht & _).
    rewrite forallb_app, (process_image_body_paths inp out _ _ _ _ Hb).
    destruct Ht as [->|(j & ->)]; reflexivity.
Qed.

(** X12.  With two arguments given, the run exits with code 0 exactly when
    the pipeline returns, with code 1 exactly when it raises a
    [FileNotFoundError], and with code 2 exactly when it raises any other
    [Exception]. *)
Theorem exit_code_causes (prog inp out : string) (fs : filesystem B) :
  (exit_status (main B [prog; inp; out] fs) = Exit 0 <->
   exists l fs', process_image_body B inp out fs = (l, fs', inl 0)) /\
  (exit_status (main B [prog; inp; out] fs) = Exit 1 <->
   exists l fs' e, process_image_body B inp out fs = (l, fs', inr e) /\
                   exn_class_of e = FileNotFoundClass) /\
  (exit_status (main B [prog; inp; out] fs) = Exit 2 <->
   exists l fs' e, process_image_body B inp out fs = (l, fs', inr e) /\
                   exn_class_of e = ExceptionClass).
Proof.
  destruct (process_image_body B inp out fs) as [[l fs'] r] eqn:Hb.
  rewrite (main_of_body prog inp out fs l fs' r Hb).
  destruct r as [c|e].
  - apply process_image_body_success in Hb.
    destruct Hb as (? & ? & ? & ? & ? & ? & ? & ? & ? & ? & ? & ? & ? & ? & ? & ? & ?
                    & ? & ? & -> & _).
    cbn [exit_status snd].
    split; [split; [eauto|reflexivity]|].
    split; (split; [discriminate|intros (? & ? & ? & E & _); discriminate E]).
  - split; [|split]; (split; [|intros H]).
    all: destruct (exn_class_of e) eqn:Hc; cbn [exit_status snd]; try discriminate;
      try (intros _; eauto).
    all: try (destruct H as (? & ? & E); discriminate E).
    all: try (destruct H as (? & ? & ? & E & Hc'); injection E as _ _ <-;
              congruence).
    all: try reflexivity.
Qed.

End Shapes.

(** ** Arithmetic of the layout and of the reported size *)

Lemma font_size_quotient (height : Z) :
  0 <= height < 2 ^ 52 -> font_size height = height / 20.
Proof.
  intros Hh. destruct (Z.eq_dec height 0) as [->|Hnz]; [reflexivity|].
  unfold font_size.
  rewrite Z.abs_eq, Z.sgn_pos, float_of_nonneg_exact by lia.
  rewrite font_size_floor_pos by lia. lia.
Qed.

(** X7.  For every height from 0 up to 2^52 the shadow radius is
    [max(2, height // 600)]; for images less than 1800 pixels high it is 2,
    so 24 shadow draws are made. *)
Theorem shadow_radius_from_height (height : Z) :
  0 <= height < 2 ^ 52 ->
  shadow_offset (font_size height) = Z.max 2 (height / 600) /\
  (height < 1800 ->
   List.length (shadow_offsets (shadow_offset (font_size height))) = 24%nat).
Proof.
  intros Hh. rewrite font_size_quotient by exact Hh.
  unfold shadow_offset. rewrite Z.div_div by lia. change (20 * 30) with 600.
  split; [reflexivity|]. intros Hsmall.
  assert (Hq : height / 600 <= 2).
  { apply Z.lt_succ_r. apply Z.div_lt_upper_bound; lia. }
  rewrite Z.max_l by lia. reflexivity.
Qed.

Lemma shadow_radius_from_height_witness :
  0 <= 1080 < 2 ^ 52 /\ shadow_offset (font_size 1080) = Z.max 2 (1080 / 600).
Proof.
  split; [lia|]. apply (shadow_radius_from_height 1080). lia.
Defined.

Lemma round_half_even_bounds (n d : Z) :
  n / d <= round_half_even n d <= n / d + 1.
Proof.
  unfold round_half_even.
  destruct (2 * (n mod d) <? d); [lia|].
  destruct (d <? 2 * (n mod d)); [lia|].
  destruct (Z.even (n / d)); lia.
Qed.

Lemma round_half_even_mono (n1 n2 d : Z) :
  0 < d -> n1 <= n2 -> round_half_even n1 d <= round_half_even n2 d.
Proof.
  intros Hd Hn.
  pose proof (Z.div_le_mono n1 n2 d Hd Hn) as Hq.
  destruct (Z.eq_dec (n1 / d) (n2 / d)) as [Heq|Hne].
  - pose proof (Z.div_mod n1 d ltac:(lia)) as H1.
    pose proof (Z.div_mod n2 d ltac:(lia)) as H2.
    assert (Hr : n1 mod d <= n2 mod d) by (rewrite Heq in H1; lia).
    unfold round_half_even. rewrite Heq.
    destruct (Z.ltb_spec (2 * (n1 mod d)) d);
      destruct (Z.ltb_spec (2 * (n2 mod d)) d);
      destruct (Z.ltb_spec d (2 * (n1 mod d)));
      destruct (Z.ltb_spec d (2 * (n2 mod d)));
      destruct (Z.even (n2 / d)); lia.
  - pose proof (round_half_even_bounds n1 d). pose proof (round_half_even_bounds n2 d).
    lia.
Qed.



(** X10.  The origin is never clamped: each coordinate is non-negative
    exactly when the measured text is no larger than the image in that
    direction, and then origin plus text extent stays within the image; a
    larger text gets a negative origin. *)
Theorem text_origin_inside_or_negative (W H left top right bottom : Z) :
  let x := fst (text_origin W H (left, top, right, bottom)) in
  let y := snd (text_origin W H (left, top, right, bottom)) in
  (0 <= x <-> right - left <= W) /\
  (0 <= y <-> bottom - top <= H) /\
  (right - left <= W -> x + (right - left) <= W) /\
  (bottom - top <= H -> y + (bottom - top) <= H).
Proof.
  cbn [text_origin fst snd].
  pose proof (Z.div_mod (W - (right - left)) 2 ltac:(lia)).
  pose proof (Z.mod_pos_bound (W - (right - left)) 2 ltac:(lia)).
  pose proof (Z.div_mod (H - (bottom - top)) 2 ltac:(lia)).
  pose proof (Z.mod_pos_bound (H - (bottom - top)) 2 ltac:(lia)).
  lia.
Qed.

(** ** The dimensions string *)

Lemma digits_have_no_x (d : Decimal.uint) (s1 s2 : string) :
  NilEmpty.string_of_uint d <> (s1 ++ String "x"%char s2)%string.
Proof.
  revert s1. induction d; intros s1 H; destruct s1 as [|c s1]; cbn in H;
    try discriminate H; injection H as _ H; exact (IHd _ H).
Qed.

Lemma str_of_int_has_no_x (z : Z) (s1 s2 : string) :
  str_of_int z <> (s1 ++ String "x"%char s2)%string.
Proof.
  unfold str_of_int, NilZero.string_of_int, NilZero.string_of_uint.
  destruct (Z.to_int z) as [d|d]; intros H.
  - destruct d; try exact (digits_have_no_x _ _ _ H).
    destruct s1 as [|c [|c' s1]]; discriminate H.
  - destruct s1 as [|c s1]; [discriminate H|]. cbn in H. injection H as _ H.
    destruct d; try exact (digits_have_no_x _ _ _ H).
    destruct s1 as [|c1 [|c' s1]]; discriminate H.
Qed.

Lemma split_at_x (s1 s2 t1 t2 : string) :
  (forall a b, s1 <> (a ++ String "x"%char b)%string) ->
  (forall a b, s2 <> (a ++ String "x"%char b)%string) ->
  (s1 ++ String "x"%char t1 = s2 ++ String "x"%char t2)%string ->
  s1 = s2 /\ t1 = t2.
Proof.
  revert s2. induction s1 as [|c s1 IH]; intros s2 H1 H2 H;
    destruct s2 as [|c' s2]; cbn in H.
  - injection H as ->. auto.
  - injection H as <- _. exfalso. apply (H2 "" s2). reflexivity.
  - injection H as -> _. exfalso. apply (H1 "" s1). reflexivity.
  - injection H as -> H.
    destruct (IH s2) as [-> ->]; auto.
    + intros a b E. apply (H1 (String c' a) b). cbn. rewrite E. reflexivity.
    + intros a b E. apply (H2 (String c' a) b). cbn. rewrite E. reflexivity.
Qed.

Lemma str_of_int_injective (z z' : Z) : str_of_int z = str_of_int z' -> z = z'.
Proof.
  unfold str_of_int. intros H.
  assert (Hnil : forall n, Z.to_int n <> Decimal.Pos Decimal.Nil /\
                           Z.to_int n <> Decimal.Neg Decimal.Nil).
  { intros [|p|p]; cbn; split; try discriminate;
      intros E; injection E as E; exact (Unsigned.to_uint_nonnil p E). }
  apply DecimalZ.to_int_inj.
  pose proof (NilZero.isi (Z.to_int z) (proj1 (Hnil z)) (proj2 (Hnil z))) as E1.
  pose proof (NilZero.isi (Z.to_int z') (proj1 (Hnil z')) (proj2 (Hnil z'))) as E2.
  rewrite H in E1. rewrite E1 in E2. injection E2 as E2. exact E2.
Qed.

(** X11.  The string [f"{width}x{height}"] determines the two integers:
    two sizes give the same string only when they are equal. *)
Theorem dimensions_determine_the_size (width height width' height' : Z) :
  dimensions width height = dimensions width' height' <->
  width = width' /\ height = height'.
Proof.
  split; [|intros [-> ->]; reflexivity].
  unfold dimensions. intros H.
  apply split_at_x in H; try apply str_of_int_has_no_x.
  destruct H as [Hw Hh].
  split; apply str_of_int_injective; assumption.
Qed.

Lemma saved_image_is_the_composition_witness :
  In (ImageSave "out.png" 95)
     (trace (main Demo.backend ["image_processor"; "in.png"; "out.png"] Demo.disk0)) /\
  exists final,
    final_filesystem
      (main Demo.backend ["image_processor"; "in.png"; "out.png"] Demo.disk0)
    = fst (Image_save Demo.backend final "out.png" 95 Demo.disk0).
Proof.
  assert (Hin : In (ImageSave "out.png" 95)
                   (trace (main Demo.backend ["image_processor"; "in.png"; "out.png"]
                             Demo.disk0))).
  { assert (E : nth 41 (trace (main Demo.backend
                                 ["image_processor"; "in.png"; "out.png"] Demo.disk0))
                    (Stdout (JStr ""))
                = ImageSave "out.png" 95) by (vm_compute; reflexivity).
    rewrite <- E. apply nth_In. vm_compute. lia. }
  split; [exact Hin|].
  destruct (saved_image_is_the_composition Demo.backend
              ["image_processor"; "in.png"; "out.png"] Demo.disk0 "out.png" 95 Hin)
    as (prog & inp & out & img & width & height & i1 & i2 & i3 & i4 & d0 & f & bbox
        & x & y & final & Hargv & _ & _ & _ & _ & _ & _ & _ & _ & _ & _ & _ & _ & Hfs).
  injection Hargv as _ _ <-.
  exists final. exact Hfs.
Defined.
